(** * Verification of the seeding utility [seed_source_db.py]

    A shallow embedding of the synthetic data generators
    ([generate_users], [generate_products], [generate_orders],
    [generate_order_items]) and of the schema provisioning
    ([create_source_tables], [create_warehouse_tables]).

    The generators read three pieces of ambient state: the module-level
    [random] generator, the wall clock ([datetime.now] and
    [pd.Timestamp.now]) and the [Faker] instance. They are gathered in a
    [World] that every generator threads through; library calls that can
    raise ([random.randint] on an empty range, [random.choice] on an
    empty sequence, [datetime.replace] out of range, a dictionary lookup,
    [fake.unique]) return an error. *)

From Stdlib Require Import ZArith Lia String Ascii List.
From stdpp Require Import base list strings gmap.

Local Open Scope string_scope.
Local Open Scope Z_scope.

(** ** Errors and the generator monad *)

Inductive exn : Type :=
  | ValueError
  | IndexError
  | KeyError
  | UniquenessException
  | DuplicateTable
  | InvalidSchemaName
  | UndefinedTable.

Inductive Result (A : Type) : Type :=
  | OK (a : A)
  | Raise (e : exn).
Arguments OK {A} a.
Arguments Raise {A} e.

(** The ambient state. A tape is an infinite sequence that is read from
    left to right; [rand_tape] holds the raw outputs of the seeded
    [random] generator (one cell per library call, reduced into the
    requested range by the call), [clock_tape] the successive readings
    of the wall clock in microseconds, [fake_tape] the successive strings
    produced by [Faker], and [unique_seen] the values [fake.unique] has
    handed out so far. *)
Record World : Type := mkWorld {
  rand_tape : nat -> Z;
  rand_pos : nat;
  clock_tape : nat -> Z;
  clock_pos : nat;
  fake_tape : nat -> string;
  fake_pos : nat;
  unique_seen : list string
}.

Definition M (A : Type) : Type := World -> Result (A * World).

Definition ret {A} (a : A) : M A := fun w => OK (a, w).

Definition bind {A B} (c : M A) (k : A -> M B) : M B :=
  fun w => match c w with
           | OK (a, w') => k a w'
           | Raise e => Raise e
           end.

Definition raise {A} (e : exn) : M A := fun _ => Raise e.

Definition lift {A} (r : Result A) : M A :=
  fun w => match r with OK a => OK (a, w) | Raise e => Raise e end.

Notation "'let*' x ':=' c 'in' k" := (bind c (fun x => k))
  (at level 10, x pattern, c at level 100, k at level 200).

(** [for _ in range(n): rows.append(body())] *)
Fixpoint for_range {A} (n : nat) (body : M A) : M (list A) :=
  match n with
  | O => ret []
  | S k => let* x := body in
           let* xs := for_range k body in
           ret (x :: xs)
  end.

(** ** The [random] module *)

Definition next_raw : M Z :=
  fun w => OK (rand_tape w (rand_pos w),
               mkWorld (rand_tape w) (S (rand_pos w)) (clock_tape w) (clock_pos w)
                       (fake_tape w) (fake_pos w) (unique_seen w)).

(** [random.randint(a, b)]: an integer in [[a, b]]; [ValueError] on an
    empty range. *)
Definition randint (a b : Z) : M Z :=
  if b <? a then raise ValueError
  else let* r := next_raw in ret (a + r mod (b - a + 1)).

(** [random.choice(seq)]: [IndexError] on an empty sequence. *)
Definition choice {A} (l : list A) : M A :=
  match l with
  | [] => raise IndexError
  | x :: _ => let* r := next_raw in
              ret (nth (Z.to_nat (r mod Z.of_nat (length l))) l x)
  end.

(** [random.random() < num / den]: [random()] is [k / 2^53] for a
    53-bit integer [k]. For the two thresholds of the source, 0.05 and
    0.03, the comparison with the binary constant and with the exact
    fraction select the same [k]. *)
Definition random_below (num den : Z) : M bool :=
  let* r := next_raw in ret (den * (r mod 2 ^ 53) <? num * 2 ^ 53).

(** [round(random.uniform(5.0, 500.0), 2)], kept in hundredths; the
    rounding of the binary floating-point product is not represented. *)
Definition uniform_price : M Z :=
  let* r := next_raw in ret (500 + ((r mod 2 ^ 53) * 49500) / 2 ^ 53).

(** [random.sample(population, k)]: [k] distinct positions of the
    population, by the library's pool selection (pick a position of the
    pool, move the last cell of the pool into it). *)
Fixpoint sample_pool {A} (k : nat) (pool : list A) : M (list A) :=
  match k with
  | O => ret []
  | S k' =>
      match pool with
      | [] => raise ValueError
      | x :: _ =>
          let* r := next_raw in
          let j := Z.to_nat (r mod Z.of_nat (length pool)) in
          let picked := nth j pool x in
          let pool' := removelast (<[j := List.last pool x]> pool) in
          let* rest := sample_pool k' pool' in
          ret (picked :: rest)
      end
  end.

Definition sample {A} (population : list A) (k : Z) : M (list A) :=
  if (k <? 0) || (Z.of_nat (length population) <? k) then raise ValueError
  else sample_pool (Z.to_nat k) population.

(** ** The clock and [datetime] arithmetic

    A timestamp is a number of microseconds since the epoch, in UTC. *)

Definition SECOND : Z := 1000000.
Definition HOUR : Z := 3600 * SECOND.
Definition DAY : Z := 24 * HOUR.

(** [datetime.now(UTC)] and [pd.Timestamp.now(tz="UTC")] *)
Definition datetime_now : M Z :=
  fun w => OK (clock_tape w (clock_pos w),
               mkWorld (rand_tape w) (rand_pos w) (clock_tape w) (S (clock_pos w))
                       (fake_tape w) (fake_pos w) (unique_seen w)).

(** The calendar day of a timestamp. *)
Definition date (t : Z) : Z := t / DAY.

(** [t.replace(hour=h, minute=m, second=s)]: the date and the
    microsecond are kept. *)
Definition replace (t h m s : Z) : Result Z :=
  if (0 <=? h) && (h <=? 23) && (0 <=? m) && (m <=? 59) && (0 <=? s) && (s <=? 59)
  then OK (date t * DAY + ((h * 60 + m) * 60 + s) * SECOND + t mod SECOND)
  else Raise ValueError.

(** [(a - b).days] is the floor of the difference in days. *)
Definition days_between (a b : Z) : Z := (a - b) / DAY.

(** The recurring
    [t.replace(hour=randint(0, 23), minute=randint(0, 59), second=randint(0, 59))]. *)
Definition randomize_time (t : Z) : M Z :=
  let* h := randint 0 23 in
  let* m := randint 0 59 in
  let* s := randint 0 59 in
  lift (replace t h m s).

(** ** Faker *)

Definition fake_next : M string :=
  fun w => OK (fake_tape w (fake_pos w),
               mkWorld (rand_tape w) (rand_pos w) (clock_tape w) (clock_pos w)
                       (fake_tape w) (S (fake_pos w)) (unique_seen w)).

Definition fake_name : M string := fake_next.
Definition fake_email : M string := fake_next.
Definition fake_address : M string := fake_next.
Definition fake_catch_phrase : M string := fake_next.

Definition remember (s : string) : M unit :=
  fun w => OK (tt, mkWorld (rand_tape w) (rand_pos w) (clock_tape w) (clock_pos w)
                           (fake_tape w) (fake_pos w) (s :: unique_seen w)).

Definition seen (s : string) : M bool :=
  fun w => OK (bool_decide (s ∈ unique_seen w), w).

(** [fake.unique.email()]: draws until a value not handed out before
    comes up, and gives up with [UniquenessException] after a bounded
    number of attempts. *)
Fixpoint unique_attempts (fuel : nat) (gen : M string) : M string :=
  match fuel with
  | O => raise UniquenessException
  | S fuel' =>
      let* v := gen in
      let* dup := seen v in
      if dup then unique_attempts fuel' gen
      else let* _ := remember v in ret v
  end.

Definition fake_unique_email : M string := unique_attempts 1000 fake_email.

(** [s.replace("\n", ", ")] *)
Fixpoint replace_newlines (s : string) : string :=
  match s with
  | EmptyString => EmptyString
  | String c rest =>
      if Ascii.eqb c "010"%char then String "," (String " " (replace_newlines rest))
      else String c (replace_newlines rest)
  end.

(** ** Rows *)

Record UserRow : Type := mkUser {
  u_name : string;
  u_email : string;
  u_address : string;
  u_created_at : Z;
  u_updated_at : Z;
  u_deleted_at : option Z
}.

Record ProductRow : Type := mkProduct {
  p_name : string;
  p_category : string;
  p_price : Z;
  p_created_at : Z;
  p_updated_at : Z;
  p_deleted_at : option Z
}.

Record OrderRow : Type := mkOrder {
  o_user_id : Z;
  o_status : string;
  o_created_at : Z;
  o_updated_at : Z
}.

Record OrderItemRow : Type := mkOrderItem {
  oi_order_id : Z;
  oi_product_id : Z;
  oi_quantity : Z
}.

(** A row of a frame after [df["id"] = ids]. *)
Record WithId (A : Type) : Type := mkWithId { id : Z; row : A }.
Arguments mkWithId {A} id row.
Arguments id {A} _.
Arguments row {A} _.

(** [df["id"] = ids] *)
Definition assign_ids {A} (ids : list Z) (rows : list A) : list (WithId A) :=
  zip_with mkWithId ids rows.

(** ** [generate_users] *)

(** The lifecycle triple shared, line for line, by [generate_users] and
    [generate_products]; [num] / [den] is the soft-delete probability. *)
Definition lifecycle (base_time : Z) (num den : Z) : M (Z * Z * option Z) :=
  let* timedelta_created_at := randint 0 90 in
  let created_at := base_time + timedelta_created_at * DAY in
  let* created_at := randomize_time created_at in
  if timedelta_created_at =? 90 then
    ret (created_at, created_at, None)
  else
    let* r := randint 0 89 in
    let timedelta_updated_at := Z.min r (90 - timedelta_created_at) in
    let updated_at := created_at + timedelta_updated_at * DAY in
    let* updated_at := randomize_time updated_at in
    let* soft := random_below num den in
    ret (created_at, updated_at, if soft then Some updated_at else None).

Definition user_body (base_time : Z) : M UserRow :=
  let* (created_at, updated_at, deleted_at) := lifecycle base_time 5 100 in
  let* name := fake_name in
  let* email := fake_unique_email in
  let* address := fake_address in
  ret (mkUser name email (replace_newlines address) created_at updated_at deleted_at).

Definition generate_users (num_users : Z) : M (list UserRow) :=
  let* now := datetime_now in
  let base_time := now - 90 * DAY in
  for_range (Z.to_nat num_users) (user_body base_time).

(** ** [generate_products] *)

Definition categories : list string :=
  ["Electronics"; "Clothing"; "Books"; "Home & Garden"; "Sports"; "Toys";
   "Food & Beverage"; "Beauty"].

Definition product_body (base_time : Z) : M ProductRow :=
  let* category := choice categories in
  let* (created_at, updated_at, deleted_at) := lifecycle base_time 3 100 in
  let* name := fake_catch_phrase in
  let* price := uniform_price in
  ret (mkProduct name category price created_at updated_at deleted_at).

Definition generate_products (num_products : Z) : M (list ProductRow) :=
  let* now := datetime_now in
  let base_time := now - 90 * DAY in
  for_range (Z.to_nat num_products) (product_body base_time).

(** ** Dictionaries

    [frame.set_index("id")["created_at"].to_dict()] builds a Python
    [dict]: keys keep the position of their first insertion, a later
    value for the same key overwrites the earlier one. *)

Fixpoint dict_set (k v : Z) (d : list (Z * Z)) : list (Z * Z) :=
  match d with
  | [] => [(k, v)]
  | (k', v') :: rest =>
      if k' =? k then (k', v) :: rest else (k', v') :: dict_set k v rest
  end.

Definition to_dict (items : list (Z * Z)) : list (Z * Z) :=
  fold_left (fun d kv => dict_set (fst kv) (snd kv) d) items [].

Definition keys (d : list (Z * Z)) : list Z := map fst d.

(** [d[k]], a [KeyError] when [k] is absent. *)
Fixpoint dict_get (k : Z) (d : list (Z * Z)) : Result Z :=
  match d with
  | [] => Raise KeyError
  | (k', v) :: rest => if k' =? k then OK v else dict_get k rest
  end.

(** ** [generate_orders] *)

Definition statuses : list string := ["pending"; "shipped"; "completed"; "cancelled"].

(** [users_df[users_df["created_at"] < pd.Timestamp.now(tz="UTC") - pd.Timedelta(days=age)]] *)
Definition older_than (now age : Z) (users_df : list (WithId UserRow)) : list (WithId UserRow) :=
  List.filter (fun u => u_created_at (row u) <? now - age * DAY) users_df.

(** [if created_at <= user_created:
       created_at = user_created + timedelta(hours=random.randint(1, 24))] *)
Definition ensure_after (created_at user_created : Z) : M Z :=
  if created_at <=? user_created then
    let* k := randint 1 24 in ret (user_created + k * HOUR)
  else ret created_at.

(** The part the three branches of the loop body have in common, up to
    their constants: the minimum age [age] of the parent in days and the
    window [[lo, hi]] of the order's day offset. The result is
    [(user_id, created_at)]. *)
Definition place_order (users_df : list (WithId UserRow)) (base_time age lo hi : Z)
  : M (Z * Z) :=
  let* now := datetime_now in
  let filtered_users_df := older_than now age users_df in
  let user_created_at :=
    to_dict (map (fun u => (id u, u_created_at (row u))) filtered_users_df) in
  let user_ids := keys user_created_at in
  let* user_id := choice user_ids in
  let* user_created := lift (dict_get user_id user_created_at) in
  let days_since_base := days_between user_created base_time in
  let* d := randint (Z.max days_since_base lo) hi in
  let created_at := base_time + d * DAY in
  let* created_at := randomize_time created_at in
  let* created_at := ensure_after created_at user_created in
  ret (user_id, created_at).

Definition order_body (users_df : list (WithId UserRow)) (base_time : Z) : M OrderRow :=
  let* status := choice statuses in
  if String.eqb status "pending" then
    let* (user_id, created_at) := place_order users_df base_time 1 76 90 in
    let updated_at := created_at in
    ret (mkOrder user_id status created_at updated_at)
  else if String.eqb status "shipped" then
    let* (user_id, created_at) := place_order users_df base_time 5 61 85 in
    let* k := randint 1 5 in
    let updated_at := created_at + k * DAY in
    let* updated_at := randomize_time updated_at in
    ret (mkOrder user_id status created_at updated_at)
  else
    let* (user_id, created_at) := place_order users_df base_time 15 11 75 in
    let* k := randint 5 15 in
    let updated_at := created_at + k * DAY in
    let* updated_at := randomize_time updated_at in
    ret (mkOrder user_id status created_at updated_at).

Definition generate_orders (users_df : list (WithId UserRow)) (num_orders : Z)
  : M (list OrderRow) :=
  let* now := datetime_now in
  let base_time := now - 90 * DAY in
  for_range (Z.to_nat num_orders) (order_body users_df base_time).

(** ** [generate_order_items] *)

(** [[pid for pid in product_ids if product_created_at[pid] < order_created]] *)
Fixpoint available (product_created_at : list (Z * Z)) (order_created : Z)
    (product_ids : list Z) : Result (list Z) :=
  match product_ids with
  | [] => OK []
  | pid :: rest =>
      match dict_get pid product_created_at with
      | Raise e => Raise e
      | OK t =>
          match available product_created_at order_created rest with
          | Raise e => Raise e
          | OK l => OK (if t <? order_created then pid :: l else l)
          end
      end
  end.

(** [for x in l: rows.append(body(x))] *)
Fixpoint for_each {A B} (l : list A) (body : A -> M B) : M (list B) :=
  match l with
  | [] => ret []
  | x :: rest => let* y := body x in
                 let* ys := for_each rest body in
                 ret (y :: ys)
  end.

(** One turn of the loop over [orders_df.iterrows()]: the rows the order
    appends to [order_items]. *)
Definition order_items_body (product_created_at : list (Z * Z)) (product_ids : list Z)
    (order : WithId OrderRow) : M (list OrderItemRow) :=
  let order_id := id order in
  let order_created := o_created_at (row order) in
  let* available_products := lift (available product_created_at order_created product_ids) in
  match available_products with
  | [] => ret []
  | _ :: _ =>
      let* num_items := randint 1 (Z.min 5 (Z.of_nat (length available_products))) in
      let* selected_products := sample available_products num_items in
      for_each selected_products (fun product_id =>
        let* quantity := randint 1 10 in
        ret (mkOrderItem order_id product_id quantity))
  end.

(** [products_df.set_index("id")["created_at"].to_dict()]. A frame that
    [pd.DataFrame] has built from an empty list of rows has no columns
    (the frame [generate_products] returns for a count of zero or below
    has only the [id] column written back by [main]): selecting
    [created_at] from it is a [KeyError]. *)
Definition created_at_by_id (products_df : list (WithId ProductRow))
  : Result (list (Z * Z)) :=
  match products_df with
  | [] => Raise KeyError
  | _ :: _ => OK (to_dict (map (fun p => (id p, p_created_at (row p))) products_df))
  end.

Definition generate_order_items (orders_df : list (WithId OrderRow))
    (products_df : list (WithId ProductRow)) : M (list OrderItemRow) :=
  let* product_created_at := lift (created_at_by_id products_df) in
  let product_ids := keys product_created_at in
  let* per_order := for_each orders_df (order_items_body product_created_at product_ids) in
  ret (concat per_order).

(** ** The generation sequence of [main]

    [insert_data] returns the keys the [SERIAL] column of a freshly
    created table hands out, 1, 2, 3, ... in insertion order; they are
    written back with [df["id"] = ids]. *)

Definition serial_ids (n : nat) : list Z := map Z.of_nat (seq 1 n).

Record Tables : Type := mkTables {
  users_table : list (WithId UserRow);
  products_table : list (WithId ProductRow);
  orders_table : list (WithId OrderRow);
  order_items_table : list OrderItemRow
}.

Definition generate_all (num_users num_products num_orders : Z) : M Tables :=
  let* users := generate_users num_users in
  let users_df := assign_ids (serial_ids (length users)) users in
  let* products := generate_products num_products in
  let products_df := assign_ids (serial_ids (length products)) products in
  let* orders := generate_orders users_df num_orders in
  let orders_df := assign_ids (serial_ids (length orders)) orders in
  let* order_items := generate_order_items orders_df products_df in
  ret (mkTables users_df products_df orders_df order_items).


(** ** Specification vocabulary *)

(** The minimum age, in days, a parent must have for an order of the
    given status: the constants of the three branches of [order_body]. *)
Definition min_parent_age (status : string) : Z :=
  if String.eqb status "pending" then 1
  else if String.eqb status "shipped" then 5
  else 15.

(** The first day offset of the creation window of an order, by status:
    the lower bounds of the three [randint] calls of [generate_orders]
    (76: the last two weeks, 61: up to four weeks, 11: up to eleven weeks
    before the end of the horizon). *)
Definition window_start (status : string) : Z :=
  if String.eqb status "pending" then 76
  else if String.eqb status "shipped" then 61
  else 11.

(** The last day offset of that window: the upper bounds of the same calls. *)
Definition window_end (status : string) : Z :=
  if String.eqb status "pending" then 90
  else if String.eqb status "shipped" then 85
  else 75.

(** How [generate_orders], called at [now], has dated an order [o] whose
    parent was created at [user_created]. [drawn] is the timestamp first
    drawn: on a day of the window of the status, not before the day
    offset of the parent, at a time of day with the microsecond of
    [now]. The order keeps it when it is strictly after the parent;
    otherwise the order is created a whole number of hours, 1 to 24,
    after the parent. *)
Record order_dating (now user_created : Z) (o : OrderRow) (drawn : Z) : Prop := {
  drawn_day :
    exists d,
      Z.max (days_between user_created (now - 90 * DAY)) (window_start (o_status o)) <= d /\
      d <= window_end (o_status o) /\
      date drawn = date (now - 90 * DAY) + d;
  drawn_microsecond : drawn mod SECOND = now mod SECOND;
  kept_or_corrected :
    (user_created < drawn /\ o_created_at o = drawn) \/
    (drawn <= user_created /\
     exists k, 1 <= k <= 24 /\ o_created_at o = user_created + k * HOUR)
}.

(** The users an order of the given status may reference at clock
    reading [now]. *)
Definition eligible_parents (now : Z) (status : string) (users_df : list (WithId UserRow))
  : list (WithId UserRow) :=
  older_than now (min_parent_age status) users_df.

(** What holds of the row a turn of the loop of [generate_orders]
    appends, started in world [w]. *)
Record order_facts (users_df : list (WithId UserRow)) (w : World) (o : OrderRow) : Prop := {
  fact_status : In (o_status o) statuses;
  fact_parent : exists u,
    In u (eligible_parents (clock_tape w (clock_pos w)) (o_status o) users_df) /\
    id u = o_user_id o /\ u_created_at (row u) < o_created_at o;
  fact_pending : o_status o = "pending" -> o_updated_at o = o_created_at o;
  fact_updated : o_created_at o <= o_updated_at o
}.

(** ** Frame condition on the clock

    No generator rewrites the readings of the clock: a run moves the
    cursors and nothing else. *)

Definition keeps_clock {A} (c : M A) : Prop :=
  forall w a w', c w = OK (a, w') -> clock_tape w' = clock_tape w.

(** ** Concrete worlds

    Finite prefixes of the three tapes; past the prefix a tape repeats a
    default cell. *)

Definition tape {A} (cells : list A) (default : A) : nat -> A :=
  fun n => nth n cells default.

Definition world_of (rand clock : list Z) (fake : list string) : World :=
  mkWorld (tape rand 0) 0 (tape clock 0) 0 (tape fake "x") 0 [].

(** The value of a run, without the final world. *)
Definition value {A} (r : Result (A * World)) : Result A :=
  match r with
  | OK (a, _) => OK a
  | Raise e => Raise e
  end.

(** Two users with keys 1 and 2, created on day 20 and on day 90 at
    23:00; the clock of the runs below reads noon of day 100. *)
Definition two_users : list (WithId UserRow) :=
  assign_ids (serial_ids 2)
    [mkUser "Ann" "ann@example.org" "1 Main St" (20 * DAY) (20 * DAY) None;
     mkUser "Bob" "bob@example.org" "2 Main St" (90 * DAY + 23 * HOUR) (90 * DAY + 23 * HOUR) None].

Definition noon_100 : Z := 100 * DAY + 12 * HOUR.

(** A world in which [generate_orders two_users 2] draws a pending order
    for Bob on Bob's own day, at 01:02:03 (before Bob was created, so
    the order is moved after him), and then a shipped order for Ann. *)
Definition orders_world : World :=
  world_of [0; 1; 0; 1; 2; 3; 0;
            1; 0; 0; 3; 4; 5; 0; 7; 8; 9]
           [noon_100; noon_100 + 1; noon_100 + 2] [].

(** A clock that reads noon of day 30: Ann, created on day 20, is old
    enough for a pending order (the first draw) and too young for a
    completed one (the second draw); Bob does not exist yet. *)
Definition early_world : World :=
  world_of [0; 0; 0; 1; 2; 3; 0; 2]
           [30 * DAY + 12 * HOUR; 30 * DAY + 12 * HOUR + 1; 30 * DAY + 12 * HOUR + 2] [].

(** ** Outcomes of a computation

    [spec c Q E]: from every world, [c] either returns a value in [Q] or
    raises an exception in [E]. With [E] empty this says that [c] always
    returns. *)
Definition spec {A} (c : M A) (Q : A -> Prop) (E : exn -> Prop) : Prop :=
  forall w, match c w with
            | OK (a, _) => Q a
            | Raise e => E e
            end.

Definition never : exn -> Prop := fun _ => False.

(** ** The generation horizon *)

(** [t] lies in the 90 days that end at [now]. *)
Definition within_horizon (now t : Z) : Prop := now - 90 * DAY <= t <= now.

(** The calendar day of [t] lies in the 90 days that end on the day of [now]. *)
Definition within_horizon_days (now t : Z) : Prop :=
  date now - 90 <= date t <= date now.

(** What [lifecycle base_time] returns: the days of the two timestamps
    are ordered and at most 90 days after the day of [base_time], and a
    deletion is stamped with [updated_at]. *)
Definition lifecycle_facts (base_time : Z) (x : Z * Z * option Z) : Prop :=
  let '(created_at, updated_at, deleted_at) := x in
  date base_time <= date created_at /\
  date created_at <= date updated_at /\
  date updated_at <= date base_time + 90 /\
  (deleted_at = None \/ deleted_at = Some updated_at).

Definition user_lifecycle (u : UserRow) : Z * Z * option Z :=
  (u_created_at u, u_updated_at u, u_deleted_at u).

Definition product_lifecycle (p : ProductRow) : Z * Z * option Z :=
  (p_created_at p, p_updated_at p, p_deleted_at p).

(** Worlds for [generate_users] and [generate_products]; the clock reads
    noon of day 100, so [base_time] is noon of day 10. *)

(** One user: created on day 20 at 23:00:00, update offset 0 days,
    update time 00:00:00, not deleted. *)
Definition same_day_world : World :=
  world_of [10; 23; 0; 0; 0; 0; 0; 0; 2 ^ 52] [noon_100]
           ["Ann"; "ann@example.org"; "1 Main St"].

(** The same draws after the draw of a category, and before that of a price. *)
Definition same_day_product_world : World :=
  world_of [2; 10; 23; 0; 0; 0; 0; 0; 0; 2 ^ 52; 0] [noon_100] ["Reactive widget"].

(** One user: created on day 11 at 00:00:00, update offset
    [min 89 (90 - 1)] days, update time 23:59:59. *)
Definition last_day_world : World :=
  world_of [1; 0; 0; 0; 89; 23; 59; 59; 2 ^ 52] [noon_100]
           ["Ann"; "ann@example.org"; "1 Main St"].

(** Faker keeps producing the same string. *)
Definition stuck_faker_world : World :=
  world_of [90; 0; 0; 0; 90; 0; 0; 0] [noon_100] [].

(** ** Order items: vocabulary and sample frames *)


(** Three products, created on days 20, 99 and 30. *)
Definition three_products : list (WithId ProductRow) :=
  assign_ids (serial_ids 3)
    [mkProduct "Widget" "Toys" 1999 (20 * DAY) (20 * DAY) None;
     mkProduct "Gadget" "Books" 500 (99 * DAY + 5) (99 * DAY + 5) None;
     mkProduct "Gizmo" "Sports" 2500 (30 * DAY + 5) (30 * DAY + 5) None].

(** Three orders, created on days 50, 5 and 25: no product existed
    before the second one. *)
Definition three_orders : list (WithId OrderRow) :=
  assign_ids (serial_ids 3)
    [mkOrder 1 "pending" (50 * DAY) (50 * DAY);
     mkOrder 1 "pending" (5 * DAY) (5 * DAY);
     mkOrder 2 "shipped" (25 * DAY) (27 * DAY)].

Definition items_world : World := world_of [1; 0; 0; 5; 6; 7; 8] [] [].

(** ** Reproducibility: vocabulary *)

(** The random generator and Faker are in the same state (same seed),
    whatever the clock reads. *)
Record same_seed (w1 w2 : World) : Prop := {
  seed_rand : forall i, rand_tape w1 i = rand_tape w2 i;
  seed_rand_pos : rand_pos w1 = rand_pos w2;
  seed_fake : forall i, fake_tape w1 i = fake_tape w2 i;
  seed_fake_pos : fake_pos w1 = fake_pos w2;
  seed_seen : unique_seen w1 = unique_seen w2
}.

(** The same seed, and a clock whose every reading is [delta]
    microseconds later. *)
Record later_world (delta : Z) (w1 w2 : World) : Prop := {
  later_seed : same_seed w1 w2;
  later_clock : forall i, clock_tape w2 i = clock_tape w1 i + delta;
  later_clock_pos : clock_pos w2 = clock_pos w1
}.

(** A row with every timestamp [delta] microseconds later. *)
Definition later_user (delta : Z) (u : UserRow) : UserRow :=
  mkUser (u_name u) (u_email u) (u_address u)
         (u_created_at u + delta) (u_updated_at u + delta)
         (option_map (fun t => t + delta) (u_deleted_at u)).

Definition later_product (delta : Z) (p : ProductRow) : ProductRow :=
  mkProduct (p_name p) (p_category p) (p_price p)
            (p_created_at p + delta) (p_updated_at p + delta)
            (option_map (fun t => t + delta) (p_deleted_at p)).

Definition later_order (delta : Z) (o : OrderRow) : OrderRow :=
  mkOrder (o_user_id o) (o_status o) (o_created_at o + delta) (o_updated_at o + delta).

(** The lifecycle triple, and a dictionary of timestamps, [delta]
    microseconds later. *)
Definition later_triple (delta : Z) (x : Z * Z * option Z) : Z * Z * option Z :=
  let '(c, u, d) := x in (c + delta, u + delta, option_map (fun t => t + delta) d).

Definition later_items (delta : Z) (d : list (Z * Z)) : list (Z * Z) :=
  map (fun kv => (fst kv, snd kv + delta)) d.

Definition with_row {A} (f : A -> A) (x : WithId A) : WithId A :=
  mkWithId (id x) (f (row x)).

Definition later_tables (delta : Z) (t : Tables) : Tables :=
  mkTables (map (with_row (later_user delta)) (users_table t))
           (map (with_row (later_product delta)) (products_table t))
           (map (with_row (later_order delta)) (orders_table t))
           (order_items_table t).

Definition later_result (delta : Z) (r : Result Tables) : Result Tables :=
  match r with
  | OK t => OK (later_tables delta t)
  | Raise e => Raise e
  end.

(** Two computations that, started in worlds [delta] apart, end the same
    way: with the same exception, or with values related by [R] in
    worlds [delta] apart. *)
Definition later_run (delta : Z) {A} (R : A -> A -> Prop) (c1 c2 : M A) : Prop :=
  forall w1 w2, later_world delta w1 w2 ->
    match c1 w1, c2 w2 with
    | OK (a1, v1), OK (a2, v2) => R a1 a2 /\ later_world delta v1 v2
    | Raise e1, Raise e2 => e1 = e2
    | _, _ => False
    end.

(** The draws of a whole run with one user, one product, one order and
    one order item. *)
Definition whole_run_draws : list Z :=
  [0; 0; 0; 0; 0; 0; 0; 0; 2 ^ 52;
   2; 5; 0; 0; 0; 0; 0; 0; 0; 2 ^ 52; 0;
   0; 0; 0; 1; 2; 3;
   0; 0; 4].

Definition whole_run_strings : list string :=
  ["Ann"; "ann@example.org"; "1 Main St"; "Reactive widget"].

(** That run with a clock that reads noon of day 100, ... *)
Definition run_at_noon : World :=
  mkWorld (tape whole_run_draws 0) 0 (fun _ => noon_100) 0
          (tape whole_run_strings "x") 0 [].

(** ... one microsecond later, ... *)
Definition run_just_after_noon : World :=
  mkWorld (tape whole_run_draws 0) 0 (fun _ => noon_100 + 1) 0
          (tape whole_run_strings "x") 0 [].

(** ... and three days later. *)
Definition run_three_days_later : World :=
  mkWorld (tape whole_run_draws 0) 0 (fun _ => 103 * DAY + 12 * HOUR) 0
          (tape whole_run_strings "x") 0 [].

(** The tables of the run at noon: Ann, created on day 10 at 00:00:00;
    a product of the third category, created on day 15; a pending order
    of Ann's, created on day 86 at 01:02:03; five pieces of the product. *)
Definition whole_run_tables : Tables :=
  mkTables
    [mkWithId 1 (mkUser "Ann" "ann@example.org" "1 Main St" (10 * DAY) (10 * DAY) None)]
    [mkWithId 1 (mkProduct "Reactive widget" "Books" 500 (15 * DAY) (15 * DAY) None)]
    [mkWithId 1 (mkOrder 1 "pending" (86 * DAY + 3723 * SECOND) (86 * DAY + 3723 * SECOND))]
    [mkOrderItem 1 1 5].

(** * Schema provisioning

    A database is a set of schemas and a finite map from qualified table
    names to tables. A name written without a schema lives in [public]. *)

Abbreviation TableName := (string * string)%type.

Definition public (name : string) : TableName := ("public", name).

(** A table: its columns (name, then type and constraints as written in
    the statement), the tables its foreign keys reference, its rows. *)
Record Table : Type := mkTable {
  t_columns : list (string * string);
  t_references : list TableName;
  t_rows : list (list string)
}.

Record Database : Type := mkDatabase {
  schemas : gset string;
  tables : gmap TableName Table
}.

(** A connection: what is committed, and what the open transaction sees. *)
Record Connection : Type := mkConnection {
  committed : Database;
  session : Database
}.

(** The parts of a [CREATE TABLE] statement. *)
Record TableDef : Type := mkTableDef {
  td_name : TableName;
  td_columns : list (string * string);
  td_references : list TableName
}.

(** The table a [CREATE TABLE] statement creates: no rows. *)
Definition empty_table (d : TableDef) : Table :=
  mkTable (td_columns d) (td_references d) [].

Definition and_then {A B} (r : Result A) (k : A -> Result B) : Result B :=
  match r with
  | OK a => k a
  | Raise e => Raise e
  end.

(** [CASCADE] removes the foreign keys that reference the dropped table. *)
Definition drop_references (n : TableName) (t : Table) : Table :=
  mkTable (t_columns t)
          (List.filter (fun r => negb (bool_decide (r = n))) (t_references t))
          (t_rows t).

(** [DROP TABLE IF EXISTS n CASCADE]: never an error. *)
Definition drop_table_if_exists (n : TableName) (db : Database) : Database :=
  mkDatabase (schemas db) (drop_references n <$> delete n (tables db)).

(** [CREATE SCHEMA IF NOT EXISTS s]: never an error. *)
Definition create_schema_if_not_exists (s : string) (db : Database) : Database :=
  mkDatabase ({[s]} ∪ schemas db) (tables db).

(** [CREATE TABLE n (...)]: an error when the schema is missing, when
    the table exists, or when a referenced table is missing. *)
Definition create_table (d : TableDef) (db : Database) : Result Database :=
  if bool_decide (fst (td_name d) ∈ schemas db) then
    match tables db !! td_name d with
    | Some _ => Raise DuplicateTable
    | None =>
        if forallb (fun r => bool_decide (is_Some (tables db !! r))) (td_references d)
        then OK (mkDatabase (schemas db) (<[td_name d := empty_table d]> (tables db)))
        else Raise UndefinedTable
    end
  else Raise InvalidSchemaName.

(** [conn.commit()] *)
Definition commit (conn : Connection) : Connection :=
  mkConnection (session conn) (session conn).

Definition timestamptz : string := "TIMESTAMP WITH TIME ZONE".
Definition timestamptz_now : string :=
  "TIMESTAMP WITH TIME ZONE NOT NULL DEFAULT CURRENT_TIMESTAMP".

(** ** [create_source_tables] *)

Definition users_def : TableDef :=
  mkTableDef (public "users")
    [("id", "SERIAL PRIMARY KEY"); ("name", "VARCHAR(255) NOT NULL");
     ("email", "VARCHAR(255) UNIQUE NOT NULL"); ("address", "TEXT");
     ("created_at", timestamptz_now); ("updated_at", timestamptz_now);
     ("deleted_at", timestamptz)] [].

Definition products_def : TableDef :=
  mkTableDef (public "products")
    [("id", "SERIAL PRIMARY KEY"); ("name", "VARCHAR(255) NOT NULL");
     ("category", "VARCHAR(100)"); ("price", "DECIMAL(10, 2) NOT NULL");
     ("created_at", timestamptz_now); ("updated_at", timestamptz_now);
     ("deleted_at", timestamptz)] [].

Definition orders_def : TableDef :=
  mkTableDef (public "orders")
    [("id", "SERIAL PRIMARY KEY"); ("user_id", "INTEGER NOT NULL");
     ("status", "VARCHAR(50) NOT NULL");
     ("created_at", timestamptz_now); ("updated_at", timestamptz_now)]
    [public "users"].

Definition order_items_def : TableDef :=
  mkTableDef (public "order_items")
    [("id", "SERIAL PRIMARY KEY"); ("order_id", "INTEGER NOT NULL");
     ("product_id", "INTEGER NOT NULL"); ("quantity", "INTEGER NOT NULL")]
    [public "orders"; public "products"].

Definition create_source_tables (conn : Connection) : Result Connection :=
  let db := session conn in
  let db := drop_table_if_exists (public "order_items") db in
  let db := drop_table_if_exists (public "orders") db in
  let db := drop_table_if_exists (public "products") db in
  let db := drop_table_if_exists (public "users") db in
  and_then (create_table users_def db) (fun db =>
  and_then (create_table products_def db) (fun db =>
  and_then (create_table orders_def db) (fun db =>
  and_then (create_table order_items_def db) (fun db =>
  OK (commit (mkConnection (committed conn) db)))))).

(** ** [create_warehouse_tables] *)

Definition users_columns : list (string * string) :=
  [("id", "INTEGER"); ("name", "VARCHAR(255)"); ("email", "VARCHAR(255)");
   ("address", "TEXT"); ("created_at", timestamptz); ("updated_at", timestamptz);
   ("deleted_at", timestamptz)].

Definition products_columns : list (string * string) :=
  [("id", "INTEGER"); ("name", "VARCHAR(255)"); ("category", "VARCHAR(100)");
   ("price", "DECIMAL(10, 2)"); ("created_at", timestamptz); ("updated_at", timestamptz);
   ("deleted_at", timestamptz)].

Definition orders_columns : list (string * string) :=
  [("id", "INTEGER"); ("user_id", "INTEGER"); ("status", "VARCHAR(50)");
   ("created_at", timestamptz); ("updated_at", timestamptz)].

Definition order_items_columns : list (string * string) :=
  [("id", "INTEGER"); ("order_id", "INTEGER"); ("product_id", "INTEGER");
   ("quantity", "INTEGER")].

Definition batch_id : string * string := ("batch_id", "CHAR(8)").

Definition raw_ingest (name : string) (columns : list (string * string)) : TableDef :=
  mkTableDef ("raw_ingest", name) (batch_id :: columns) [].

Definition raw_current (name : string) (columns : list (string * string)) : TableDef :=
  mkTableDef ("raw_current", name) columns [].

Definition create_warehouse_tables (conn : Connection) : Result Connection :=
  let db := session conn in
  let db := create_schema_if_not_exists "raw_ingest" db in
  let db := create_schema_if_not_exists "raw_current" db in
  let db := drop_table_if_exists ("raw_ingest", "order_items") db in
  let db := drop_table_if_exists ("raw_ingest", "orders") db in
  let db := drop_table_if_exists ("raw_ingest", "products") db in
  let db := drop_table_if_exists ("raw_ingest", "users") db in
  let db := drop_table_if_exists ("raw_current", "order_items") db in
  let db := drop_table_if_exists ("raw_current", "orders") db in
  let db := drop_table_if_exists ("raw_current", "products") db in
  let db := drop_table_if_exists ("raw_current", "users") db in
  and_then (create_table (raw_ingest "users" users_columns) db) (fun db =>
  and_then (create_table (raw_ingest "products" products_columns) db) (fun db =>
  and_then (create_table (raw_ingest "orders" orders_columns) db) (fun db =>
  and_then (create_table (raw_ingest "order_items" order_items_columns) db) (fun db =>
  and_then (create_table (raw_current "users" users_columns) db) (fun db =>
  and_then (create_table (raw_current "products" products_columns) db) (fun db =>
  and_then (create_table (raw_current "orders" orders_columns) db) (fun db =>
  and_then (create_table (raw_current "order_items" order_items_columns) db) (fun db =>
  OK (commit (mkConnection (committed conn) db)))))))))).

(** ** Provisioning: vocabulary *)

Definition source_tables : list TableDef :=
  [users_def; products_def; orders_def; order_items_def].

Definition warehouse_tables : list TableDef :=
  [raw_ingest "users" users_columns; raw_ingest "products" products_columns;
   raw_ingest "orders" orders_columns; raw_ingest "order_items" order_items_columns;
   raw_current "users" users_columns; raw_current "products" products_columns;
   raw_current "orders" orders_columns; raw_current "order_items" order_items_columns].

(** The statements of a provisioning run, in bulk. *)
Definition drop_all (ns : list TableName) (db : Database) : Database :=
  fold_left (fun db n => drop_table_if_exists n db) ns db.

Fixpoint create_all (defs : list TableDef) (db : Database) : Result Database :=
  match defs with
  | [] => OK db
  | d :: rest => and_then (create_table d db) (create_all rest)
  end.

Definition drop_all_references (ns : list TableName) (t : Table) : Table :=
  fold_left (fun t n => drop_references n t) ns t.

Definition insert_all (defs : list TableDef) (m : gmap TableName Table)
  : gmap TableName Table :=
  fold_left (fun m d => <[td_name d := empty_table d]> m) defs m.

(** The foreign keys of every definition point to tables created by
    earlier definitions of the list (or to the tables [created] before). *)
Fixpoint references_created (created : list TableName) (defs : list TableDef) : bool :=
  match defs with
  | [] => true
  | d :: rest =>
      forallb (fun r => bool_decide (r ∈ created)) (td_references d)
      && references_created (td_name d :: created) rest
  end.

(** Every table of [defs] is in the database as it was created: with the
    columns of its definition and no rows. *)
Definition provisioned (defs : list TableDef) (db : Database) : Prop :=
  Forall (fun d => tables db !! td_name d = Some (empty_table d)) defs.

(** A database of an earlier life of the project: a populated [users]
    table, and a table [audit] that references it. *)
Definition used_database : Database :=
  mkDatabase {["public"]}
    (<[public "users" := mkTable [("id", "INTEGER")] [] [["1"]; ["2"]]]>
       (<[public "audit" := mkTable [("user_id", "INTEGER")] [public "users"] [["1"]]]> ∅)).

Definition used_connection : Connection := mkConnection used_database used_database.

(** A warehouse that has never been provisioned. *)
Definition blank_connection : Connection :=
  mkConnection (mkDatabase ∅ ∅) (mkDatabase ∅ ∅).

(** * Further vocabulary *)

(** The whole days between the calendar days of two timestamps. *)
Definition days_apart (earlier later : Z) : Z := date later - date earlier.

(** The row's address has no line break. *)
Fixpoint single_line (s : string) : Prop :=
  match s with
  | EmptyString => True
  | String c rest => c <> "010"%char /\ single_line rest
  end.

(** A clock that stands still at noon of day 100, with the draws of
    [orders_world]. *)
Definition steady_world : World :=
  mkWorld (tape [0; 1; 0; 1; 2; 3; 0; 1; 0; 0; 3; 4; 5; 0; 7; 8; 9] 0) 0
          (fun _ => noon_100) 0 (tape [] "x") 0 [].

(** Two users: draws for the first as in [same_day_world], all draws 0
    for the second; Faker proposes the first user's address again before
    it comes up with a new one. *)
Definition two_users_world : World :=
  world_of [10; 23; 0; 0; 0; 0; 0; 0; 2 ^ 52] [noon_100]
           ["Ann"; "ann@example.org"; "1 Main St
Springfield"; "Bob"; "ann@example.org"; "bob@example.org"; "2 Main St"].

(** The shape of a lifecycle triple drawn at [now]: the day of the
    update is not before the day of the creation, a deletion carries the
    timestamp of the update, and a row created on the day of [now] has
    never been updated or deleted. *)
Definition lifecycle_shape (now : Z) (x : Z * Z * option Z) : Prop :=
  let '(created_at, updated_at, deleted_at) := x in
  date created_at <= date updated_at /\
  (forall t, deleted_at = Some t -> t = updated_at) /\
  (date created_at = date now -> updated_at = created_at /\ deleted_at = None).

(** A computation that leaves the memory of [fake.unique] as it is. *)
Definition keeps_seen {A} (c : M A) : Prop :=
  forall w a w', c w = OK (a, w') -> unique_seen w' = unique_seen w.

(** A computation that, when it returns, has read the clock [n] times. *)
Definition reads_clock (n : nat) {A} (c : M A) : Prop :=
  forall w a w', c w = OK (a, w') -> clock_pos w' = (clock_pos w + n)%nat.

(** The dictionary [product_created_at] of [generate_order_items]. *)
Definition product_dict (products_df : list (WithId ProductRow)) : list (Z * Z) :=
  to_dict (map (fun p => (id p, p_created_at (row p))) products_df).

(** The rows one order contributes to the order items: at most five,
    for distinct products, all carrying the key of the order and a
    quantity from 1 to 10; none exactly when no product is available. *)
Record order_chunk (products_df : list (WithId ProductRow)) (order : WithId OrderRow)
    (chunk : list OrderItemRow) : Prop := {
  chunk_size : Z.of_nat (length chunk) <= 5;
  chunk_distinct : List.NoDup (map oi_product_id chunk);
  chunk_rows : Forall (fun it => oi_order_id it = id order /\
                                 1 <= oi_quantity it <= 10) chunk;
  chunk_empty : chunk = [] <->
                available (product_dict products_df) (o_created_at (row order))
                          (keys (product_dict products_df)) = OK []
}.

(** [spec_in I c Q]: started in a world that satisfies [I], the
    computation [c] does not raise, returns a value in [Q] and ends in a
    world that satisfies [I]. *)
Definition spec_in (I : World -> Prop) {A} (c : M A) (Q : A -> Prop) : Prop :=
  forall w, I w ->
    match c w with
    | OK (a, w') => Q a /\ I w'
    | Raise _ => False
    end.

(** The readings of the clock are those of [readings]. *)
Definition on_clock (readings : nat -> Z) (w : World) : Prop :=
  clock_tape w = readings.

(** ** Provisioning: what is left alone *)

Definition source_names : list TableName :=
  [public "order_items"; public "orders"; public "products"; public "users"].

Definition warehouse_names : list TableName :=
  [("raw_ingest", "order_items"); ("raw_ingest", "orders");
   ("raw_ingest", "products"); ("raw_ingest", "users");
   ("raw_current", "order_items"); ("raw_current", "orders");
   ("raw_current", "products"); ("raw_current", "users")].

(** Every table whose name is not in [ns] is in [after] exactly when it
    is in [before], with the same columns and the same rows; of its
    foreign keys, those that reference a table of [ns] are gone. *)
Definition spared (ns : list TableName) (before after : Database) : Prop :=
  forall j, j ∉ ns ->
    match tables before !! j, tables after !! j with
    | Some t, Some t' =>
        t_columns t' = t_columns t /\
        t_rows t' = t_rows t /\
        t_references t' =
          List.filter (fun r => negb (bool_decide (r ∈ ns))) (t_references t)
    | None, None => True
    | _, _ => False
    end.

(** ** The generated data set *)

(** Referential integrity of the four tables, with the order in time
    that the foreign keys stand for: keys are unique within a table,
    every order references a user created before it, every order item
    references an order of the table and a product created before that
    order. *)
Record consistent_tables (t : Tables) : Prop := {
  user_keys_unique : List.NoDup (map id (users_table t));
  product_keys_unique : List.NoDup (map id (products_table t));
  order_keys_unique : List.NoDup (map id (orders_table t));
  orders_reference_users :
    Forall (fun o => exists u,
              In u (users_table t) /\ id u = o_user_id (row o) /\
              u_created_at (row u) < o_created_at (row o)) (orders_table t);
  items_reference_orders_and_products :
    Forall (fun it => exists o p,
              In o (orders_table t) /\ id o = oi_order_id it /\
              In p (products_table t) /\ id p = oi_product_id it /\
              p_created_at (row p) < o_created_at (row o)) (order_items_table t)
}.

(** A world for a whole run: one user, one product, one order, and the
    clock at noon of day 100. *)
Definition whole_run_world : World :=
  mkWorld (tape [0; 0; 0; 0; 0; 0; 0; 0; 2 ^ 52;
                 2; 5; 0; 0; 0; 0; 0; 0; 0; 2 ^ 52; 0;
                 0; 0; 0; 1; 2; 3;
                 0; 0; 4] 0) 0
          (fun _ => noon_100) 0
          (tape ["Ann"; "ann@example.org"; "1 Main St"; "Reactive widget"] "x") 0 [].

(** * Code that talks to the outside

    [insert_data] and the pipeline blocks call a database server and the
    file system. What these do is not in the repository: it is taken as
    a parameter, and a failed call keeps the state it leaves behind. *)

Inductive Outcome (E A : Type) : Type :=
  | Done (a : A)
  | Failed (e : E).
Arguments Done {E A} a.
Arguments Failed {E A} e.

(** ** [insert_data] *)

(** A cell of a data frame; [CNaT] is pandas' missing timestamp and
    [CNone] is [None], which the driver sends as [NULL]. *)
Inductive Cell : Type :=
  | CText (s : string)
  | CInt (n : Z)
  | CDecimal (hundredths : Z)
  | CTimestamp (t : Z)
  | CNaT
  | CNone.

Record DataFrame : Type := mkDataFrame {
  df_columns : list string;
  df_rows : list (list Cell)
}.

(** [df.replace({pd.NaT: None})] *)
Definition replace_NaT (df : DataFrame) : DataFrame :=
  mkDataFrame (df_columns df)
    (map (map (fun c => match c with CNaT => CNone | _ => c end)) (df_rows df)).

Section InsertData.

(** The error a statement can end in. *)
Variable DatabaseError : Type.

(** [cur.execute("INSERT INTO table (columns) VALUES (tuple) RETURNING id");
    cur.fetchone()[0]]: the key the server returns, and what the open
    transaction sees afterwards. *)
Variable execute_insert :
  string -> list string -> list Cell -> Database -> Outcome DatabaseError Z * Database.

(** The loop over [df.iterrows()]: stops at the first statement that fails. *)
Fixpoint insert_rows (table_name : string) (columns : list string)
    (rows : list (list Cell)) (db : Database)
  : Outcome DatabaseError (list Z) * Database :=
  match rows with
  | [] => (Done [], db)
  | r :: rest =>
      match execute_insert table_name columns r db with
      | (Failed e, db1) => (Failed e, db1)
      | (Done key, db1) =>
          match insert_rows table_name columns rest db1 with
          | (Failed e, db2) => (Failed e, db2)
          | (Done keys, db2) => (Done (key :: keys), db2)
          end
      end
  end.

Definition insert_data (conn : Connection) (table_name : string) (df : DataFrame)
  : Outcome DatabaseError (list Z) * Connection :=
  let df := replace_NaT df in
  let columns := df_columns df in
  match insert_rows table_name columns (df_rows df) (session conn) with
  | (Failed e, db) => (Failed e, mkConnection (committed conn) db)
  | (Done ids, db) => (Done ids, commit (mkConnection (committed conn) db))
  end.

End InsertData.

(** A server for examples: a row is stored as the texts of its cells,
    under the next free key, in a table that exists, unless a cell is a
    [NaT], which the driver cannot send. *)
Definition cell_text (c : Cell) : string :=
  match c with
  | CText s => s
  | CInt n => "int"
  | CDecimal n => "decimal"
  | CTimestamp t => "timestamp"
  | CNaT => "NaT"
  | CNone => "NULL"
  end.

Definition toy_insert (table_name : string) (columns : list string) (tuple : list Cell)
    (db : Database) : Outcome string Z * Database :=
  match tables db !! public table_name with
  | None => (Failed "42P01", db)
  | Some t =>
      if existsb (fun c => match c with CNaT => true | _ => false end) tuple
      then (Failed "can't adapt type 'NaTType'", db)
      else (Done (Z.of_nat (S (length (t_rows t)))),
            mkDatabase (schemas db)
              (<[public table_name :=
                   mkTable (t_columns t) (t_references t)
                           (t_rows t ++ [map cell_text tuple])]> (tables db)))
  end.

(** A connection to a database with an empty table [users]. *)
Definition fresh_connection : Connection :=
  let db := mkDatabase {["public"]} (<[public "users" := empty_table users_def]> ∅) in
  mkConnection db db.

Definition two_rows : DataFrame :=
  mkDataFrame ["name"; "deleted_at"]
    [[CText "Ann"; CNaT]; [CText "Bob"; CTimestamp 5]].

(** ** The pipeline blocks [evaluate_condition] and [export_data_to_file] *)

(** The keyword arguments the blocks read; [None] for an absent key. *)
Record Kwargs : Type := mkKwargs {
  kw_execution_date : option Z;
  kw_table_name : option string
}.

Inductive block_exn : Type :=
  | MissingKey (key : string)
  | OSError.

Section Lake.

Variable FileSystem : Type.
Variable Frame : Type.

(** [os.path.exists], [os.makedirs(path, exist_ok=True)],
    [FileIO().export(df, filepath, 'parquet')] and
    [datetime.strftime("%Y-%m-%d")]. *)
Variable path_exists : string -> FileSystem -> bool.
Variable makedirs : string -> FileSystem -> Outcome block_exn unit * FileSystem.
Variable file_export :
  Frame -> string -> FileSystem -> Outcome block_exn unit * FileSystem.
Variable strftime : Z -> string.

(** [snapshot_exists.evaluate_condition] *)
Definition evaluate_condition (kwargs : Kwargs) (fs : FileSystem)
  : Outcome block_exn bool :=
  match kw_execution_date kwargs with
  | None => Failed (MissingKey "execution_date")
  | Some date =>
      let execution_date := strftime date in
      match kw_table_name kwargs with
      | None => Failed (MissingKey "table_name")
      | Some table_name =>
          let filepath :=
            ("data/" ++ table_name ++ "/" ++ execution_date ++ ".parquet")%string in
          if path_exists filepath fs then Done false else Done true
      end
  end.

(** [save_to_lake.export_data_to_file] *)
Definition export_data_to_file (df : Frame) (kwargs : Kwargs) (fs : FileSystem)
  : Outcome block_exn unit * FileSystem :=
  match kw_execution_date kwargs with
  | None => (Failed (MissingKey "execution_date"), fs)
  | Some date =>
      let execution_date := strftime date in
      match kw_table_name kwargs with
      | None => (Failed (MissingKey "table_name"), fs)
      | Some table_name =>
          let output_dir := ("data/" ++ table_name)%string in
          match makedirs output_dir fs with
          | (Failed e, fs1) => (Failed e, fs1)
          | (Done _, fs1) =>
              let filepath :=
                (output_dir ++ "/" ++ execution_date ++ ".parquet")%string in
              file_export df filepath fs1
          end
      end
  end.

End Lake.

(** A file system for examples: the list of the paths that exist. *)
Definition toy_exists (path : string) (fs : list string) : bool :=
  existsb (String.eqb path) fs.

Definition toy_makedirs (path : string) (fs : list string)
  : Outcome block_exn unit * list string :=
  (Done tt, if toy_exists path fs then fs else path :: fs).

Definition toy_export (df : DataFrame) (path : string) (fs : list string)
  : Outcome block_exn unit * list string :=
  (Done tt, path :: fs).

Definition toy_strftime (t : Z) : string :=
  if t =? 0 then "1970-01-01" else "1970-01-02".
(** * Reasoning principles for the generator monad *)

Lemma bind_OK {A B} (c : M A) (k : A -> M B) w b w2 :
  bind c k w = OK (b, w2) ->
  exists a w1, c w = OK (a, w1) /\ k a w1 = OK (b, w2).
Proof.
  unfold bind. destruct (c w) as [[a w1]|e]; [|discriminate].
  intros H. exists a, w1. split; [reflexivity|exact H].
Qed.

Lemma ret_OK {A} (a b : A) w w' : ret a w = OK (b, w') -> b = a /\ w' = w.
Proof. unfold ret. intros H. inversion H. auto. Qed.

Lemma lift_OK {A} (r : Result A) a w w' :
  lift r w = OK (a, w') -> r = OK a /\ w' = w.
Proof. unfold lift. destruct r; intros H; inversion H. auto. Qed.

(** Peels the binds of a successful run, one at a time. *)
Ltac inv_bind H :=
  let a := fresh "v" in
  let w := fresh "w" in
  let Ha := fresh "Hrun" in
  apply bind_OK in H; destruct H as (a & w & Ha & H).

Ltac inv_ret H :=
  apply ret_OK in H; destruct H as [? ?]; subst.

Lemma randint_OK a b w v w' :
  randint a b w = OK (v, w') -> a <= v <= b.
Proof.
  unfold randint. destruct (b <? a) eqn:Hab; [discriminate|].
  apply Z.ltb_ge in Hab. intros H. inv_bind H. inv_ret H.
  assert (0 <= v0 mod (b - a + 1) < b - a + 1) by (apply Z.mod_pos_bound; lia).
  lia.
Qed.

Lemma randint_total a b w :
  a <= b -> exists v w', randint a b w = OK (v, w') /\ a <= v <= b.
Proof.
  intros Hab. unfold randint.
  destruct (b <? a) eqn:E; [apply Z.ltb_lt in E; lia|].
  eexists _, _. split; [reflexivity|].
  assert (0 <= rand_tape w (rand_pos w) mod (b - a + 1) < b - a + 1)
    by (apply Z.mod_pos_bound; lia).
  lia.
Qed.

Lemma choice_OK {A} (l : list A) w x w' :
  choice l w = OK (x, w') -> In x l.
Proof.
  unfold choice. destruct l as [|y l']; [discriminate|].
  intros H. inv_bind H. inv_ret H.
  apply nth_In.
  assert (0 <= v mod Z.of_nat (length (y :: l')) < Z.of_nat (length (y :: l')))
    by (apply Z.mod_pos_bound; simpl length; lia).
  lia.
Qed.

Lemma choice_empty {A} w : choice (@nil A) w = Raise IndexError.
Proof. reflexivity. Qed.

Lemma choice_total {A} (l : list A) w :
  l <> [] -> exists x w', choice l w = OK (x, w').
Proof.
  destruct l as [|y l']; [congruence|]. intros _.
  unfold choice, bind, next_raw, ret. eexists _, _. reflexivity.
Qed.

(** ** Timestamps *)

Lemma DAY_pos : 0 < DAY.
Proof. reflexivity. Qed.

Lemma date_spec t : date t * DAY <= t < date t * DAY + DAY.
Proof.
  unfold date. pose proof (Z.div_mod t DAY ltac:(discriminate)) as Hd.
  pose proof (Z.mod_pos_bound t DAY DAY_pos). lia.
Qed.

Lemma date_unique t d : d * DAY <= t < d * DAY + DAY -> date t = d.
Proof.
  intros H. unfold date. symmetry.
  apply (Z.div_unique t DAY d (t - d * DAY)); lia.
Qed.

Lemma date_add_days t k : date (t + k * DAY) = date t + k.
Proof.
  apply date_unique. pose proof (date_spec t). lia.
Qed.

Lemma date_mono a b : a <= b -> date a <= date b.
Proof. intros H. unfold date. apply Z.div_le_mono; [apply DAY_pos|exact H]. Qed.

Lemma replace_OK t h m s v :
  replace t h m s = OK v ->
  date t * DAY <= v < date t * DAY + DAY /\ v mod SECOND = t mod SECOND.
Proof.
  unfold replace.
  destruct ((0 <=? h) && (h <=? 23) && (0 <=? m) && (m <=? 59) && (0 <=? s) && (s <=? 59))
    eqn:E; [|discriminate].
  repeat (apply andb_prop in E; destruct E as [E ?]).
  intros Hv. inversion Hv; subst v; clear Hv.
  pose proof (Z.mod_pos_bound t SECOND ltac:(reflexivity)) as Hm.
  split.
  - unfold DAY, HOUR, SECOND in *. lia.
  - replace (date t * DAY + ((h * 60 + m) * 60 + s) * SECOND + t mod SECOND)
      with (t mod SECOND + (date t * (24 * 3600) + ((h * 60 + m) * 60 + s)) * SECOND)
      by (unfold DAY, HOUR; ring).
    rewrite Z.mod_add by discriminate. apply Z.mod_mod. discriminate.
Qed.

Lemma replace_total t h m s :
  0 <= h <= 23 -> 0 <= m <= 59 -> 0 <= s <= 59 -> exists v, replace t h m s = OK v.
Proof.
  intros Hh Hm Hs. unfold replace.
  replace ((0 <=? h) && (h <=? 23) && (0 <=? m) && (m <=? 59) && (0 <=? s) && (s <=? 59))
    with true; [eexists; reflexivity|].
  symmetry. repeat (apply andb_true_intro; split); apply Z.leb_le; lia.
Qed.

Lemma randomize_time_OK t w v w' :
  randomize_time t w = OK (v, w') -> date v = date t.
Proof.
  unfold randomize_time. intros H.
  inv_bind H. inv_bind H. inv_bind H.
  apply lift_OK in H. destruct H as [H _].
  apply replace_OK in H. apply date_unique. tauto.
Qed.

(** ** Loops *)

Lemma for_range_OK {A} (P : A -> Prop) (body : M A) :
  (forall w x w', body w = OK (x, w') -> P x) ->
  forall n w l w', for_range n body w = OK (l, w') ->
    length l = n /\ Forall P l.
Proof.
  intros Hbody. induction n as [|n IH]; simpl; intros w l w' H.
  - inv_ret H. split; [reflexivity|constructor].
  - inv_bind H. inv_bind H. inv_ret H.
    apply IH in Hrun0. destruct Hrun0 as [Hlen Hall].
    split; [simpl; congruence|]. constructor; [eauto|exact Hall].
Qed.

Lemma for_each_OK {A B} (P : A -> B -> Prop) (body : A -> M B) :
  (forall a w y w', body a w = OK (y, w') -> P a y) ->
  forall l w ys w', for_each l body w = OK (ys, w') -> Forall2 P l ys.
Proof.
  intros Hbody. induction l as [|a l IH]; simpl; intros w ys w' H.
  - inv_ret H. constructor.
  - inv_bind H. inv_bind H. inv_ret H. constructor; eauto.
Qed.

(** ** The clock tape is only read *)

Lemma keeps_clock_ret {A} (a : A) : keeps_clock (ret a).
Proof. intros w b w' H. inv_ret H. reflexivity. Qed.

Lemma keeps_clock_raise {A} e : keeps_clock (@raise A e).
Proof. intros w b w' H. discriminate. Qed.

Lemma keeps_clock_lift {A} (r : Result A) : keeps_clock (lift r).
Proof. intros w b w' H. apply lift_OK in H. destruct H as [_ ->]. reflexivity. Qed.

Lemma keeps_clock_bind {A B} (c : M A) (k : A -> M B) :
  keeps_clock c -> (forall a, keeps_clock (k a)) -> keeps_clock (bind c k).
Proof.
  intros Hc Hk w b w' H. inv_bind H.
  rewrite (Hk _ _ _ _ H). eapply Hc. eassumption.
Qed.

Lemma keeps_clock_next_raw : keeps_clock next_raw.
Proof. intros w a w' H. inversion H. reflexivity. Qed.

Lemma keeps_clock_datetime_now : keeps_clock datetime_now.
Proof. intros w a w' H. inversion H. reflexivity. Qed.

Lemma keeps_clock_fake_next : keeps_clock fake_next.
Proof. intros w a w' H. inversion H. reflexivity. Qed.

Lemma keeps_clock_randint a b : keeps_clock (randint a b).
Proof.
  unfold randint. destruct (b <? a).
  - apply keeps_clock_raise.
  - apply keeps_clock_bind; [apply keeps_clock_next_raw|intros; apply keeps_clock_ret].
Qed.

Lemma keeps_clock_choice {A} (l : list A) : keeps_clock (choice l).
Proof.
  unfold choice. destruct l.
  - apply keeps_clock_raise.
  - apply keeps_clock_bind; [apply keeps_clock_next_raw|intros; apply keeps_clock_ret].
Qed.

Create HintDb clock discriminated.
#[local] Hint Resolve keeps_clock_ret keeps_clock_raise keeps_clock_lift
  keeps_clock_next_raw keeps_clock_datetime_now keeps_clock_fake_next
  keeps_clock_randint keeps_clock_choice : clock.

(** Splits a sequence of binds into its calls. *)
Ltac clock_steps :=
  repeat (first [ solve [auto with clock]
                | apply keeps_clock_bind; [|intros] ]).

Lemma keeps_clock_randomize_time t : keeps_clock (randomize_time t).
Proof. unfold randomize_time. clock_steps. Qed.

#[local] Hint Resolve keeps_clock_randomize_time : clock.

Lemma keeps_clock_for_range {A} (body : M A) n :
  keeps_clock body -> keeps_clock (for_range n body).
Proof. intros Hb. induction n; simpl; clock_steps. Qed.

Lemma keeps_clock_ensure_after c u : keeps_clock (ensure_after c u).
Proof. unfold ensure_after. destruct (c <=? u); clock_steps. Qed.

#[local] Hint Resolve keeps_clock_ensure_after : clock.

Lemma keeps_clock_place_order users_df base_time age lo hi :
  keeps_clock (place_order users_df base_time age lo hi).
Proof. unfold place_order. clock_steps. Qed.

#[local] Hint Resolve keeps_clock_place_order : clock.

Lemma keeps_clock_order_body users_df base_time :
  keeps_clock (order_body users_df base_time).
Proof.
  unfold order_body. apply keeps_clock_bind; [auto with clock|]. intros status.
  destruct (String.eqb status "pending"); [|destruct (String.eqb status "shipped")];
    (apply keeps_clock_bind; [auto with clock|]; intros [user_id created_at]; clock_steps).
Qed.

(** ** Dictionaries *)

Lemma dict_get_set j k v d :
  dict_get j (dict_set k v d) = if k =? j then OK v else dict_get j d.
Proof.
  induction d as [|[k' v'] d IH]; simpl.
  - reflexivity.
  - destruct (k' =? k) eqn:Ek; simpl.
    + apply Z.eqb_eq in Ek. subst k'. destruct (k =? j); reflexivity.
    + rewrite IH. destruct (k' =? j) eqn:Ej; [|reflexivity].
      apply Z.eqb_eq in Ej. subst k'. rewrite Z.eqb_sym, Ek. reflexivity.
Qed.

Lemma keys_dict_set x k v d :
  In x (keys (dict_set k v d)) <-> x = k \/ In x (keys d).
Proof.
  unfold keys. induction d as [|[k' v'] d IH]; simpl.
  - intuition.
  - destruct (k' =? k) eqn:Ek; simpl.
    + apply Z.eqb_eq in Ek. subst k'. intuition.
    + rewrite IH. intuition.
Qed.

Lemma dict_get_In k d : In k (keys d) -> exists v, dict_get k d = OK v.
Proof.
  unfold keys. induction d as [|[k' v'] d IH]; simpl; [tauto|].
  intros [->|H].
  - rewrite Z.eqb_refl. eauto.
  - destruct (k' =? k); eauto.
Qed.

Lemma dict_get_keys k d v : dict_get k d = OK v -> In k (keys d).
Proof.
  unfold keys. induction d as [|[k' v'] d IH]; simpl; [discriminate|].
  destruct (k' =? k) eqn:E; [apply Z.eqb_eq in E; auto|auto].
Qed.

Lemma to_dict_acc_get items : forall acc k v,
  dict_get k (fold_left (fun d kv => dict_set (fst kv) (snd kv) d) items acc) = OK v ->
  In (k, v) items \/ dict_get k acc = OK v.
Proof.
  induction items as [|[k0 v0] items IH]; simpl; intros acc k v H; [auto|].
  apply IH in H. destruct H as [H|H]; [auto|].
  rewrite dict_get_set in H. destruct (k0 =? k) eqn:E; [|auto].
  apply Z.eqb_eq in E. inversion H. subst. auto.
Qed.

Lemma to_dict_get items k v : dict_get k (to_dict items) = OK v -> In (k, v) items.
Proof.
  unfold to_dict. intros H. apply to_dict_acc_get in H.
  destruct H as [H|H]; [exact H|discriminate].
Qed.

Lemma to_dict_acc_keys items : forall acc k,
  In k (keys (fold_left (fun d kv => dict_set (fst kv) (snd kv) d) items acc)) <->
  In k (map fst items) \/ In k (keys acc).
Proof.
  induction items as [|[k0 v0] items IH]; simpl; intros acc k; [tauto|].
  rewrite IH, keys_dict_set. intuition.
Qed.

Lemma to_dict_keys items k : In k (keys (to_dict items)) <-> In k (map fst items).
Proof. unfold to_dict. rewrite to_dict_acc_keys. simpl. tauto. Qed.

(** ** One order *)


Lemma older_than_In now age users_df u :
  In u (older_than now age users_df) <->
  In u users_df /\ u_created_at (row u) < now - age * DAY.
Proof. unfold older_than. rewrite filter_In, Z.ltb_lt. tauto. Qed.

Lemma for_range_inv {A} (I : World -> Prop) (P : A -> Prop) (body : M A) :
  (forall w x w', I w -> body w = OK (x, w') -> P x /\ I w') ->
  forall n w l w', I w -> for_range n body w = OK (l, w') ->
    length l = n /\ Forall P l /\ I w'.
Proof.
  intros Hbody. induction n as [|n IH]; simpl; intros w l w' Hw H.
  - inv_ret H. auto.
  - inv_bind H. inv_bind H. inv_ret H.
    destruct (Hbody _ _ _ Hw Hrun) as [Hx Hw0].
    destruct (IH _ _ _ Hw0 Hrun0) as (Hlen & Hall & Hw1).
    split; [simpl; congruence|]. split; [constructor; assumption|assumption].
Qed.

Lemma ensure_after_OK created_at user_created w v w' :
  ensure_after created_at user_created w = OK (v, w') -> user_created < v.
Proof.
  unfold ensure_after. destruct (created_at <=? user_created) eqn:E; intros H.
  - inv_bind H. inv_ret H. apply randint_OK in Hrun. unfold HOUR, SECOND. lia.
  - inv_ret H. apply Z.leb_gt in E. exact E.
Qed.

Lemma ensure_after_kept created_at user_created w :
  user_created < created_at -> ensure_after created_at user_created w = OK (created_at, w).
Proof.
  intros H. unfold ensure_after.
  destruct (created_at <=? user_created) eqn:E; [apply Z.leb_le in E; lia|reflexivity].
Qed.

Lemma ensure_after_corrected created_at user_created w :
  created_at <= user_created ->
  exists k w', 1 <= k <= 24 /\
    ensure_after created_at user_created w = OK (user_created + k * HOUR, w').
Proof.
  intros H. unfold ensure_after.
  destruct (created_at <=? user_created) eqn:E; [|apply Z.leb_gt in E; lia].
  destruct (randint_total 1 24 w ltac:(lia)) as (k & w' & Hk & Hr).
  exists k, w'. split; [exact Hr|]. unfold bind. rewrite Hk. reflexivity.
Qed.

Lemma NoDup_id_unique {A} (l : list (WithId A)) u u' :
  List.NoDup (map id l) -> In u l -> In u' l -> id u = id u' -> u = u'.
Proof.
  induction l as [|x l IH]; simpl; [tauto|].
  intros Hnd Hu Hu' Hid. inversion Hnd as [|? ? Hnot Hnd']; subst.
  destruct Hu as [->|Hu], Hu' as [->|Hu']; auto.
  - exfalso. apply Hnot. rewrite Hid. apply in_map. exact Hu'.
  - exfalso. apply Hnot. rewrite <- Hid. apply in_map. exact Hu.
Qed.

(** What a successful [place_order] has chosen. *)
Lemma place_order_OK users_df base_time age lo hi w user_id created_at w' :
  place_order users_df base_time age lo hi w = OK ((user_id, created_at), w') ->
  exists u,
    In u (older_than (clock_tape w (clock_pos w)) age users_df) /\
    id u = user_id /\ u_created_at (row u) < created_at.
Proof.
  unfold place_order. intros H.
  inv_bind H. inversion Hrun; subst v w0; clear Hrun.
  inv_bind H. inv_bind H. apply lift_OK in Hrun0. destruct Hrun0 as [Hget ->].
  inv_bind H. inv_bind H. inv_bind H. inv_ret H.
  apply ensure_after_OK in Hrun2.
  apply to_dict_get in Hget. apply in_map_iff in Hget.
  destruct Hget as (u & Hu & Hin). inversion Hu; subst.
  inversion H; subst. exists u. auto.
Qed.


Lemma later_day_later t k v : 1 <= k -> date v = date (t + k * DAY) -> t <= v.
Proof.
  intros Hk Hd. rewrite date_add_days in Hd.
  pose proof (date_spec t). pose proof (date_spec v). nia.
Qed.

Lemma order_body_OK users_df base_time w o w' :
  order_body users_df base_time w = OK (o, w') -> order_facts users_df w o.
Proof.
  unfold order_body. intros H. inv_bind H. rename v into status.
  pose proof (choice_OK _ _ _ _ Hrun) as Hst.
  assert (Hclk : clock_tape w0 (clock_pos w0) = clock_tape w (clock_pos w)).
  { unfold choice, statuses, bind, next_raw, ret in Hrun. inversion Hrun. reflexivity. }
  destruct (String.eqb status "pending") eqn:Ep;
    [|destruct (String.eqb status "shipped") eqn:Es].
  - inv_bind H. destruct v as [user_id created_at]. inv_ret H.
    apply place_order_OK in Hrun0. rewrite Hclk in Hrun0.
    constructor; simpl; auto; try lia.
    unfold eligible_parents, min_parent_age. rewrite Ep. exact Hrun0.
  - inv_bind H. destruct v as [user_id created_at].
    inv_bind H. inv_bind H. inv_ret H.
    apply place_order_OK in Hrun0. rewrite Hclk in Hrun0.
    apply randint_OK in Hrun1. apply randomize_time_OK in Hrun2.
    constructor; simpl; auto.
    + unfold eligible_parents, min_parent_age. rewrite Ep, Es. exact Hrun0.
    + intros ->. discriminate.
    + apply (later_day_later _ v); [lia|exact Hrun2].
  - inv_bind H. destruct v as [user_id created_at].
    inv_bind H. inv_bind H. inv_ret H.
    apply place_order_OK in Hrun0. rewrite Hclk in Hrun0.
    apply randint_OK in Hrun1. apply randomize_time_OK in Hrun2.
    constructor; simpl; auto.
    + unfold eligible_parents, min_parent_age. rewrite Ep, Es. exact Hrun0.
    + intros ->. discriminate.
    + apply (later_day_later _ v); [lia|exact Hrun2].
Qed.

(** Every row of a successful [generate_orders] has the facts of its
    turn of the loop, at some reading [i] of the clock. *)
Lemma generate_orders_rows users_df num_orders w rows w' :
  generate_orders users_df num_orders w = OK (rows, w') ->
  length rows = Z.to_nat num_orders /\
  Forall (fun o => exists w1, clock_tape w1 = clock_tape w /\ order_facts users_df w1 o) rows.
Proof.
  unfold generate_orders. intros H. inv_bind H.
  inversion Hrun; subst v w0; clear Hrun.
  eapply (for_range_inv (fun w1 => clock_tape w1 = clock_tape w)) in H.
  - destruct H as (Hlen & Hall & _). split; [exact Hlen|exact Hall].
  - intros w1 o w2 Hw1 Hbody. split.
    + exists w1. split; [exact Hw1|]. eapply order_body_OK. exact Hbody.
    + rewrite <- Hw1. eapply keeps_clock_order_body. exact Hbody.
  - reflexivity.
Qed.

Lemma for_range_fail {A} (body : M A) m e : forall k w rows wk,
  for_range k body w = OK (rows, wk) ->
  body wk = Raise e ->
  for_range (k + S m) body w = Raise e.
Proof.
  induction k as [|k IH]; intros w rows wk Hk Hfail.
  - simpl in Hk. inv_ret Hk. simpl. unfold bind. rewrite Hfail. reflexivity.
  - simpl in Hk. inv_bind Hk. inv_bind Hk. inv_ret Hk.
    change (S k + S m)%nat with (S (k + S m)). simpl.
    unfold bind at 1. rewrite Hrun.
    unfold bind at 1. rewrite (IH _ _ _ Hrun0 Hfail). reflexivity.
Qed.

Lemma place_order_empty users_df base_time age lo hi w :
  older_than (clock_tape w (clock_pos w)) age users_df = [] ->
  place_order users_df base_time age lo hi w = Raise IndexError.
Proof.
  intros Hnone. unfold place_order, bind at 1, datetime_now.
  rewrite Hnone. reflexivity.
Qed.

Lemma order_body_empty users_df base_time w status w' :
  choice statuses w = OK (status, w') ->
  eligible_parents (clock_tape w' (clock_pos w')) status users_df = [] ->
  order_body users_df base_time w = Raise IndexError.
Proof.
  intros Hst Hnone. unfold order_body, bind at 1. rewrite Hst.
  unfold eligible_parents, min_parent_age in Hnone.
  destruct (String.eqb status "pending");
    [|destruct (String.eqb status "shipped")];
    unfold bind at 1; rewrite (place_order_empty _ _ _ _ _ _ Hnone); reflexivity.
Qed.

(** * Orders *)

(** C10. Whenever [generate_orders users_df num_orders] returns, for a
    count that is not negative, it returns exactly [num_orders] rows (no
    order is skipped); the status of every row is one of pending,
    shipped, completed and cancelled, and its [user_id] is the key of a
    user of the input frame. *)
Theorem generate_orders_count_status_user users_df num_orders w rows w' :
  0 <= num_orders ->
  generate_orders users_df num_orders w = OK (rows, w') ->
  Z.of_nat (length rows) = num_orders /\
  Forall (fun o =>
            In (o_status o) ["pending"; "shipped"; "completed"; "cancelled"] /\
            exists u, In u users_df /\ id u = o_user_id o) rows.
Proof.
  intros Hn Hrun. apply generate_orders_rows in Hrun. destruct Hrun as [Hlen Hall].
  split; [lia|].
  eapply List.Forall_impl; [|exact Hall]. simpl.
  intros o (w1 & _ & Hfacts). split.
  - exact (fact_status _ _ _ Hfacts).
  - destruct (fact_parent _ _ _ Hfacts) as (u & Hu & Hid & _).
    apply older_than_In in Hu. exists u. tauto.
Qed.

Lemma generate_orders_count_status_user_witness :
  exists rows,
    value (generate_orders two_users 2 orders_world) = OK rows /\
    Z.of_nat (length rows) = 2 /\
    Forall (fun o =>
              In (o_status o) ["pending"; "shipped"; "completed"; "cancelled"] /\
              exists u, In u two_users /\ id u = o_user_id o) rows.
Proof.
  destruct (generate_orders two_users 2 orders_world) as [[rows w']|e] eqn:Hrun;
    [|vm_compute in Hrun; discriminate].
  exists rows. split; [reflexivity|].
  apply (generate_orders_count_status_user two_users 2 orders_world rows w');
    [lia|exact Hrun].
Defined.

(** C8. Every order of status "pending" that [generate_orders] produces
    has [updated_at] equal to [created_at], also when [created_at] was
    moved after the parent. *)
Theorem pending_updated_at_is_created_at users_df num_orders w rows w' :
  generate_orders users_df num_orders w = OK (rows, w') ->
  Forall (fun o => o_status o = "pending" -> o_updated_at o = o_created_at o) rows.
Proof.
  intros Hrun. apply generate_orders_rows in Hrun. destruct Hrun as [_ Hall].
  eapply List.Forall_impl; [|exact Hall]. simpl.
  intros o (w1 & _ & Hfacts). exact (fact_pending _ _ _ Hfacts).
Qed.

Lemma pending_updated_at_is_created_at_witness :
  exists rows,
    value (generate_orders two_users 2 orders_world) = OK rows /\
    nth_error rows 0 = Some (mkOrder 2 "pending" (91 * DAY) (91 * DAY)) /\
    Forall (fun o => o_status o = "pending" -> o_updated_at o = o_created_at o) rows.
Proof.
  destruct (generate_orders two_users 2 orders_world) as [[rows w']|e] eqn:Hrun;
    [|vm_compute in Hrun; discriminate].
  exists rows. split; [reflexivity|]. split.
  - vm_compute in Hrun. inversion Hrun. reflexivity.
  - apply (pending_updated_at_is_created_at two_users 2 orders_world rows w' Hrun).
Defined.

Lemma ensure_after_cases created_at user_created w v w' :
  ensure_after created_at user_created w = OK (v, w') ->
  (user_created < created_at /\ v = created_at) \/
  (created_at <= user_created /\
   exists k, 1 <= k <= 24 /\ v = user_created + k * HOUR).
Proof.
  unfold ensure_after. destruct (created_at <=? user_created) eqn:E; intros H.
  - apply Z.leb_le in E. inv_bind H. inv_ret H. apply randint_OK in Hrun.
    right. split; [exact E|]. exists v0. split; [exact Hrun|reflexivity].
  - apply Z.leb_gt in E. inv_ret H. left. split; [exact E|reflexivity].
Qed.

Lemma add_days_microsecond t d : (t + d * DAY) mod SECOND = t mod SECOND.
Proof.
  replace (t + d * DAY) with (t + (d * 86400) * SECOND) by (unfold DAY, HOUR; ring).
  apply Z.mod_add. discriminate.
Qed.

Lemma randomize_time_microsecond t w v w' :
  randomize_time t w = OK (v, w') -> v mod SECOND = t mod SECOND.
Proof.
  unfold randomize_time. intros H.
  inv_bind H. inv_bind H. inv_bind H.
  apply lift_OK in H. destruct H as [H _].
  apply replace_OK in H. tauto.
Qed.

(** What a successful [place_order] has drawn and returned. *)
Lemma place_order_dating users_df base_time age lo hi w user_id created_at w' :
  place_order users_df base_time age lo hi w = OK ((user_id, created_at), w') ->
  exists u drawn,
    In u users_df /\ id u = user_id /\
    (exists d, Z.max (days_between (u_created_at (row u)) base_time) lo <= d /\
               d <= hi /\ date drawn = date base_time + d) /\
    drawn mod SECOND = base_time mod SECOND /\
    ((u_created_at (row u) < drawn /\ created_at = drawn) \/
     (drawn <= u_created_at (row u) /\
      exists k, 1 <= k <= 24 /\ created_at = u_created_at (row u) + k * HOUR)).
Proof.
  unfold place_order. intros H.
  inv_bind H. inversion Hrun; subst v w0; clear Hrun.
  inv_bind H. inv_bind H. apply lift_OK in Hrun0. destruct Hrun0 as [Hget ->].
  inv_bind H. inv_bind H. inv_bind H. inversion H; subst; clear H.
  apply to_dict_get, in_map_iff in Hget. destruct Hget as (u & Hu & Hin).
  inversion Hu; subst; clear Hu. apply older_than_In in Hin. destruct Hin as [Hin _].
  apply randint_OK in Hrun0.
  pose proof (randomize_time_OK _ _ _ _ Hrun1) as Hday.
  apply randomize_time_microsecond in Hrun1.
  apply ensure_after_cases in Hrun2.
  rewrite date_add_days in Hday. rewrite add_days_microsecond in Hrun1.
  exists u, v2. split; [exact Hin|]. split; [reflexivity|].
  split; [exists v1; split; [tauto|split; [tauto|exact Hday]]|].
  split; [exact Hrun1|exact Hrun2].
Qed.

Lemma order_body_dating users_df now w o w' :
  order_body users_df (now - 90 * DAY) w = OK (o, w') ->
  exists u drawn,
    In u users_df /\ id u = o_user_id o /\
    order_dating now (u_created_at (row u)) o drawn.
Proof.
  assert (Hmicro : (now - 90 * DAY) mod SECOND = now mod SECOND).
  { replace (now - 90 * DAY) with (now + (-90) * DAY) by ring. apply add_days_microsecond. }
  unfold order_body. intros H. inv_bind H. rename v into status.
  destruct (String.eqb status "pending") eqn:Ep;
    [|destruct (String.eqb status "shipped") eqn:Es].
  - inv_bind H. destruct v as [user_id created_at]. inv_ret H.
    apply place_order_dating in Hrun0.
    destruct Hrun0 as (u & drawn & Hu & Hid & Hd & Hm & Hc).
    exists u, drawn. split; [exact Hu|]. split; [exact Hid|].
    constructor; simpl; unfold window_start, window_end; rewrite ?Ep; try assumption.
    congruence.
  - inv_bind H. destruct v as [user_id created_at].
    inv_bind H. inv_bind H. inv_ret H.
    apply place_order_dating in Hrun0.
    destruct Hrun0 as (u & drawn & Hu & Hid & Hd & Hm & Hc).
    exists u, drawn. split; [exact Hu|]. split; [exact Hid|].
    constructor; simpl; unfold window_start, window_end; rewrite ?Ep, ?Es; try assumption.
    congruence.
  - inv_bind H. destruct v as [user_id created_at].
    inv_bind H. inv_bind H. inv_ret H.
    apply place_order_dating in Hrun0.
    destruct Hrun0 as (u & drawn & Hu & Hid & Hd & Hm & Hc).
    exists u, drawn. split; [exact Hu|]. split; [exact Hid|].
    constructor; simpl; unfold window_start, window_end; rewrite ?Ep, ?Es; try assumption.
    congruence.
Qed.

(** C2. [generate_orders] returns one row per requested order, and
    every row references a user of the input frame that was created
    strictly before the order, whatever the status; when keys are unique
    this is the one user with that key. The order carries the timestamp
    first drawn for it (on a day of the window of its status, with the
    microsecond of the clock) when that is strictly after the creation of
    the parent; when it is not, the order is created at the parent's
    creation plus a whole number of hours from 1 to 24. *)
Theorem order_created_after_user users_df num_orders w rows w' :
  generate_orders users_df num_orders w = OK (rows, w') ->
  length rows = Z.to_nat num_orders /\
  Forall (fun o =>
            exists u drawn,
              In u users_df /\ id u = o_user_id o /\
              u_created_at (row u) < o_created_at o /\
              (List.NoDup (map id users_df) ->
               forall u', In u' users_df -> id u' = o_user_id o ->
                          u_created_at (row u') < o_created_at o) /\
              order_dating (clock_tape w (clock_pos w)) (u_created_at (row u)) o drawn)
         rows.
Proof.
  unfold generate_orders. intros H. inv_bind H.
  inversion Hrun; subst v w0; clear Hrun.
  eapply for_range_OK in H; [exact H|]. cbv beta.
  intros w1 o w2 Hbody. apply order_body_dating in Hbody.
  destruct Hbody as (u & drawn & Hu & Hid & Hdating).
  assert (Hlt : u_created_at (row u) < o_created_at o).
  { destruct (kept_or_corrected _ _ _ _ Hdating) as [[Hlt ->]|[_ (k & Hk & ->)]];
      [exact Hlt|unfold HOUR, SECOND; lia]. }
  exists u, drawn.
  split; [exact Hu|]. split; [exact Hid|]. split; [exact Hlt|].
  split; [|exact Hdating].
  intros Hnd u' Hu' Hid'.
  rewrite (NoDup_id_unique users_df u' u Hnd Hu' Hu); [exact Hlt|congruence].
Qed.

Lemma order_created_after_user_witness :
  exists rows,
    value (generate_orders two_users 2 orders_world) = OK rows /\
    rows = [mkOrder 2 "pending" (90 * DAY + 23 * HOUR + 1 * HOUR) (91 * DAY);
            mkOrder 1 "shipped" (71 * DAY + 11045 * SECOND) (72 * DAY + 25689 * SECOND)] /\
    length rows = 2%nat /\
    Forall (fun o =>
              exists u drawn,
                In u two_users /\ id u = o_user_id o /\
                u_created_at (row u) < o_created_at o /\
                (List.NoDup (map id two_users) ->
                 forall u', In u' two_users -> id u' = o_user_id o ->
                            u_created_at (row u') < o_created_at o) /\
                order_dating noon_100 (u_created_at (row u)) o drawn) rows.
Proof.
  destruct (generate_orders two_users 2 orders_world) as [[rows w']|e] eqn:Hrun;
    [|vm_compute in Hrun; discriminate].
  exists rows. split; [reflexivity|]. split.
  - vm_compute in Hrun. inversion Hrun. reflexivity.
  - exact (order_created_after_user two_users 2 orders_world rows w' Hrun).
Defined.

(** C6. When, after any number of orders, the status drawn for the next
    order has no eligible parent (no user older than the minimum age of
    that status at the clock reading of the draw), [generate_orders]
    raises: it returns no rows and picks no parent. *)
Theorem empty_eligible_set_raises users_df k num_orders w rows wk status wk' :
  generate_orders users_df (Z.of_nat k) w = OK (rows, wk) ->
  choice statuses wk = OK (status, wk') ->
  eligible_parents (clock_tape wk' (clock_pos wk')) status users_df = [] ->
  Z.of_nat k < num_orders ->
  generate_orders users_df num_orders w = Raise IndexError.
Proof.
  unfold generate_orders. intros Hk Hst Hnone Hlt.
  inv_bind Hk. unfold bind. rewrite Hrun.
  rewrite Nat2Z.id in Hk.
  replace (Z.to_nat num_orders) with (k + S (Z.to_nat num_orders - S k))%nat by lia.
  eapply for_range_fail; [exact Hk|].
  eapply order_body_empty; eassumption.
Qed.

Lemma empty_eligible_set_raises_witness :
  (exists rows, value (generate_orders two_users 1 early_world) = OK rows /\
                length rows = 1%nat) /\
  generate_orders two_users 3 early_world = Raise IndexError.
Proof.
  destruct (generate_orders two_users (Z.of_nat 1) early_world) as [[rows wk]|e] eqn:Hrun;
    [|vm_compute in Hrun; discriminate].
  split.
  - exists rows. change (Z.of_nat 1) with 1 in Hrun. rewrite Hrun.
    split; [reflexivity|].
    vm_compute in Hrun. inversion Hrun. reflexivity.
  - pose proof Hrun as Hwk. vm_compute in Hwk. inversion Hwk; subst rows wk; clear Hwk.
    eapply (empty_eligible_set_raises two_users 1 3 early_world _ _ "completed" _ Hrun).
    + reflexivity.
    + vm_compute. reflexivity.
    + lia.
Defined.

(** * Outcomes: composing [spec] *)

Lemma spec_ret {A} (a : A) (Q : A -> Prop) E : Q a -> spec (ret a) Q E.
Proof. intros H w. exact H. Qed.

Lemma spec_raise {A} e (Q : A -> Prop) (E : exn -> Prop) : E e -> spec (raise e) Q E.
Proof. intros H w. exact H. Qed.

Lemma spec_bind {A B} (c : M A) (k : A -> M B) (Q : A -> Prop) (R : B -> Prop) E :
  spec c Q E -> (forall a, Q a -> spec (k a) R E) -> spec (bind c k) R E.
Proof.
  intros Hc Hk w. unfold bind. specialize (Hc w).
  destruct (c w) as [[a w1]|e]; [apply Hk; exact Hc|exact Hc].
Qed.

Lemma spec_weaken {A} (c : M A) (Q Q' : A -> Prop) (E E' : exn -> Prop) :
  spec c Q E -> (forall a, Q a -> Q' a) -> (forall e, E e -> E' e) -> spec c Q' E'.
Proof.
  intros Hc HQ HE w. specialize (Hc w). destruct (c w) as [[a w1]|e]; auto.
Qed.

Lemma spec_next_raw E : spec next_raw (fun _ => True) E.
Proof. intros w. exact I. Qed.

Lemma spec_fake_next E : spec fake_next (fun _ => True) E.
Proof. intros w. exact I. Qed.

Lemma spec_random_below num den E : spec (random_below num den) (fun _ => True) E.
Proof. intros w. exact I. Qed.

Lemma spec_uniform_price E : spec uniform_price (fun _ => True) E.
Proof. intros w. exact I. Qed.

Lemma spec_randint a b E : a <= b -> spec (randint a b) (fun v => a <= v <= b) E.
Proof.
  intros Hab w. destruct (randint_total a b w Hab) as (v & w' & Hrun & Hv).
  rewrite Hrun. exact Hv.
Qed.

Lemma spec_choice {A} (l : list A) E : l <> [] -> spec (choice l) (fun x => In x l) E.
Proof.
  intros Hl w. destruct (choice_total l w Hl) as (x & w' & Hrun).
  rewrite Hrun. eapply choice_OK. exact Hrun.
Qed.

Lemma spec_randomize_time t E : spec (randomize_time t) (fun v => date v = date t) E.
Proof.
  unfold randomize_time.
  eapply spec_bind; [apply spec_randint; lia|]. intros h Hh.
  eapply spec_bind; [apply spec_randint; lia|]. intros m Hm.
  eapply spec_bind; [apply spec_randint; lia|]. intros s Hs.
  destruct (replace_total t h m s Hh Hm Hs) as (v & Hv).
  rewrite Hv. apply spec_ret. apply replace_OK in Hv. apply date_unique. tauto.
Qed.

Lemma spec_for_range {A} (body : M A) (Q : A -> Prop) E n :
  spec body Q E ->
  spec (for_range n body) (fun l => length l = n /\ Forall Q l) E.
Proof.
  intros Hb. induction n as [|n IH]; simpl.
  - apply spec_ret. auto.
  - eapply spec_bind; [exact Hb|]. intros x Hx.
    eapply spec_bind; [exact IH|]. intros xs [Hlen Hxs].
    apply spec_ret. simpl. auto.
Qed.

Lemma spec_unique_attempts gen (E : exn -> Prop) fuel :
  spec gen (fun _ => True) E -> E UniquenessException ->
  spec (unique_attempts fuel gen) (fun _ => True) E.
Proof.
  intros Hgen HE. induction fuel as [|fuel IH]; simpl.
  - apply spec_raise. exact HE.
  - eapply spec_bind; [exact Hgen|]. intros v _.
    eapply spec_bind with (Q := fun _ => True); [intros w; exact I|].
    intros [|] _; [exact IH|].
    eapply spec_bind with (Q := fun _ => True); [intros w; exact I|].
    intros _ _. apply spec_ret. exact I.
Qed.

(** * Users and products *)

Lemma spec_lifecycle base_time num den E :
  spec (lifecycle base_time num den) (lifecycle_facts base_time) E.
Proof.
  unfold lifecycle.
  eapply spec_bind; [apply spec_randint; lia|]. intros d Hd.
  eapply spec_bind; [apply spec_randomize_time|]. intros c Hc.
  rewrite date_add_days in Hc.
  destruct (d =? 90) eqn:E90.
  - apply spec_ret. unfold lifecycle_facts. simpl in Hd.
    split; [lia|]. split; [lia|]. split; [lia|]. left; reflexivity.
  - apply Z.eqb_neq in E90.
    eapply spec_bind; [apply spec_randint; lia|]. intros r Hr.
    eapply spec_bind; [apply spec_randomize_time|]. intros u Hu.
    rewrite date_add_days in Hu.
    eapply spec_bind; [apply spec_random_below|].
    intros soft _. apply spec_ret. unfold lifecycle_facts. simpl in Hd, Hr.
    split; [lia|]. split; [lia|]. split; [lia|].
    destruct soft; [right|left]; reflexivity.
Qed.

Lemma spec_user_body base_time :
  spec (user_body base_time)
       (fun u => lifecycle_facts base_time (user_lifecycle u))
       (fun e => e = UniquenessException).
Proof.
  unfold user_body.
  eapply spec_bind; [apply spec_lifecycle|]. intros [[c u] d] Hfacts.
  eapply spec_bind; [apply spec_fake_next|]. intros name _.
  eapply spec_bind; [apply spec_unique_attempts; [apply spec_fake_next|reflexivity]|].
  intros email _.
  eapply spec_bind; [apply spec_fake_next|]. intros address _.
  apply spec_ret. exact Hfacts.
Qed.

Lemma spec_product_body base_time :
  spec (product_body base_time)
       (fun p => lifecycle_facts base_time (product_lifecycle p) /\
                 In (p_category p) categories)
       never.
Proof.
  unfold product_body.
  eapply spec_bind; [apply spec_choice; discriminate|]. intros category Hcat.
  eapply spec_bind; [apply spec_lifecycle|]. intros [[c u] d] Hfacts.
  eapply spec_bind; [apply spec_fake_next|]. intros name _.
  eapply spec_bind; [apply spec_uniform_price|].
  intros price _. apply spec_ret. split; [exact Hfacts|exact Hcat].
Qed.

Lemma generate_users_spec num_users w :
  match generate_users num_users w with
  | OK (rows, _) =>
      length rows = Z.to_nat num_users /\
      Forall (fun u => lifecycle_facts (clock_tape w (clock_pos w) - 90 * DAY)
                                       (user_lifecycle u)) rows
  | Raise e => e = UniquenessException
  end.
Proof.
  unfold generate_users, bind at 1, datetime_now.
  apply (spec_for_range _ _ _ (Z.to_nat num_users)
           (spec_user_body (clock_tape w (clock_pos w) - 90 * DAY))).
Qed.

Lemma generate_products_spec num_products w :
  match generate_products num_products w with
  | OK (rows, _) =>
      length rows = Z.to_nat num_products /\
      Forall (fun p => lifecycle_facts (clock_tape w (clock_pos w) - 90 * DAY)
                                       (product_lifecycle p) /\
                       In (p_category p) categories) rows
  | Raise e => False
  end.
Proof.
  unfold generate_products, bind at 1, datetime_now.
  apply (spec_for_range _ _ _ (Z.to_nat num_products)
           (spec_product_body (clock_tape w (clock_pos w) - 90 * DAY))).
Qed.

Lemma lifecycle_within_horizon now x :
  lifecycle_facts (now - 90 * DAY) x ->
  let '(created_at, updated_at, deleted_at) := x in
  within_horizon_days now created_at /\
  within_horizon_days now updated_at /\
  (forall t, deleted_at = Some t -> within_horizon_days now t).
Proof.
  destruct x as [[c u] d]. unfold lifecycle_facts, within_horizon_days.
  replace (now - 90 * DAY) with (now + (-90) * DAY) by ring.
  rewrite date_add_days. intros (H1 & H2 & H3 & H4).
  split; [lia|]. split; [lia|].
  intros t Ht. destruct H4 as [H4|H4]; rewrite H4 in Ht; inversion Ht; subst; lia.
Qed.

(** C1 (the code departs from the claim). A user whose update offset is
    drawn as 0 days keeps the day of [created_at] and gets a fresh time of
    day: created on day 20 at 23:00:00 and updated on day 20 at 00:00:00,
    [updated_at] precedes [created_at]. [generate_products] runs the same
    lines. *)
Theorem generate_users_updated_before_created :
  value (generate_users 1 same_day_world) =
    OK [mkUser "Ann" "ann@example.org" "1 Main St"
               (20 * DAY + 23 * HOUR) (20 * DAY) None] /\
  value (generate_products 1 same_day_product_world) =
    OK [mkProduct "Reactive widget" "Books" 500
                  (20 * DAY + 23 * HOUR) (20 * DAY) None] /\
  20 * DAY < 20 * DAY + 23 * HOUR.
Proof. vm_compute. repeat split; reflexivity. Qed.

(** The part of C1 that the generators do satisfy: the day of
    [updated_at] is never before the day of [created_at], and a deleted
    row is deleted at [updated_at]. *)
Lemma generate_users_days_ordered num_users w rows w' :
  generate_users num_users w = OK (rows, w') ->
  Forall (fun u => date (u_created_at u) <= date (u_updated_at u) /\
                   forall t, u_deleted_at u = Some t -> t = u_updated_at u) rows.
Proof.
  intros Hrun. pose proof (generate_users_spec num_users w) as Hs.
  rewrite Hrun in Hs. destruct Hs as [_ Hall].
  eapply List.Forall_impl; [|exact Hall]. simpl.
  intros [name email address c u d]. unfold user_lifecycle, lifecycle_facts. simpl.
  intros (_ & H2 & _ & H4). split; [exact H2|].
  intros t Ht. destruct H4 as [H4|H4]; rewrite H4 in Ht; inversion Ht; reflexivity.
Qed.

Lemma generate_orders_updated_after_created users_df num_orders w rows w' :
  generate_orders users_df num_orders w = OK (rows, w') ->
  Forall (fun o => o_created_at o <= o_updated_at o) rows.
Proof.
  intros Hrun. apply generate_orders_rows in Hrun. destruct Hrun as [_ Hall].
  eapply List.Forall_impl; [|exact Hall]. simpl.
  intros o (w1 & _ & Hfacts). exact (fact_updated _ _ _ Hfacts).
Qed.

(** C7, as the claim states it, fails: a user created on day 11 whose
    update offset is capped at 89 days is updated on day 100, the day of
    [now], at 23:59:59, after [now] (noon of day 100). *)
Lemma updated_at_exceeds_now :
  clock_tape last_day_world (clock_pos last_day_world) = noon_100 /\
  exists u,
    value (generate_users 1 last_day_world) = OK [u] /\
    noon_100 < u_updated_at u /\
    ~ within_horizon noon_100 (u_updated_at u).
Proof.
  split; [reflexivity|].
  eexists. split; [vm_compute; reflexivity|].
  unfold within_horizon. simpl. vm_compute. split; [reflexivity|].
  intros [_ H]. apply H. reflexivity.
Qed.

(** C7, amended. The calendar day of every timestamp ([created_at],
    [updated_at], and [deleted_at] when set) of every generated user and
    product lies within the 90 days that end on the day of generation; in
    particular the day of [updated_at] is never after the day of [now].
    The time of day is drawn independently of [now]. *)
Theorem timestamps_within_horizon_days
    num_users num_products wu wp users products wu' wp' :
  generate_users num_users wu = OK (users, wu') ->
  generate_products num_products wp = OK (products, wp') ->
  Forall (fun u =>
            let now := clock_tape wu (clock_pos wu) in
            within_horizon_days now (u_created_at u) /\
            within_horizon_days now (u_updated_at u) /\
            (forall t, u_deleted_at u = Some t -> within_horizon_days now t)) users /\
  Forall (fun p =>
            let now := clock_tape wp (clock_pos wp) in
            within_horizon_days now (p_created_at p) /\
            within_horizon_days now (p_updated_at p) /\
            (forall t, p_deleted_at p = Some t -> within_horizon_days now t)) products.
Proof.
  intros Hu Hp. split.
  - pose proof (generate_users_spec num_users wu) as Hs.
    rewrite Hu in Hs. destruct Hs as [_ Hall].
    eapply List.Forall_impl; [|exact Hall]. cbv beta.
    intros u Hfacts.
    exact (lifecycle_within_horizon _ (user_lifecycle u) Hfacts).
  - pose proof (generate_products_spec num_products wp) as Hs.
    rewrite Hp in Hs. destruct Hs as [_ Hall].
    eapply List.Forall_impl; [|exact Hall]. cbv beta.
    intros p [Hfacts _].
    exact (lifecycle_within_horizon _ (product_lifecycle p) Hfacts).
Qed.

Lemma timestamps_within_horizon_days_witness :
  exists users products,
    value (generate_users 1 last_day_world) = OK users /\
    value (generate_products 1 same_day_product_world) = OK products /\
    Forall (fun u =>
              within_horizon_days noon_100 (u_created_at u) /\
              within_horizon_days noon_100 (u_updated_at u) /\
              (forall t, u_deleted_at u = Some t -> within_horizon_days noon_100 t)) users /\
    Forall (fun p =>
              within_horizon_days noon_100 (p_created_at p) /\
              within_horizon_days noon_100 (p_updated_at p) /\
              (forall t, p_deleted_at p = Some t -> within_horizon_days noon_100 t)) products.
Proof.
  destruct (generate_users 1 last_day_world) as [[users wu']|e] eqn:Hu;
    [|vm_compute in Hu; discriminate].
  destruct (generate_products 1 same_day_product_world) as [[products wp']|e] eqn:Hp;
    [|vm_compute in Hp; discriminate].
  exists users, products. split; [reflexivity|]. split; [reflexivity|].
  exact (timestamps_within_horizon_days 1 1 last_day_world same_day_product_world
           users products wu' wp' Hu Hp).
Defined.

(** C4, as the claim states it, fails: a count of zero or below is not
    rejected, the generators return an empty table. *)
Lemma nonpositive_count_returns_empty :
  value (generate_users 0 same_day_world) = OK [] /\
  value (generate_users (-3) same_day_world) = OK [] /\
  value (generate_products 0 same_day_product_world) = OK [] /\
  value (generate_products (-3) same_day_product_world) = OK [].
Proof. repeat split; reflexivity. Qed.

(** [generate_users] does fail when Faker cannot come up with an unused
    address: the second user below asks for an address 1000 times. *)
Lemma generate_users_uniqueness_exhausted :
  generate_users 2 stuck_faker_world = Raise UniquenessException.
Proof. vm_compute. reflexivity. Qed.

(** C4, amended. No count is rejected: [generate_products] returns for
    every count, [generate_users] returns or raises Faker's
    [UniquenessException] (no unused email address) and nothing else; a
    result has [max count 0] rows, so a count of zero or below gives an
    empty table. *)
Theorem generators_accept_every_count (count : Z) (w : World) :
  (exists rows w', generate_products count w = OK (rows, w') /\
                   length rows = Z.to_nat count) /\
  ((exists rows w', generate_users count w = OK (rows, w') /\
                    length rows = Z.to_nat count) \/
   generate_users count w = Raise UniquenessException) /\
  (count <= 0 ->
   value (generate_users count w) = OK [] /\ value (generate_products count w) = OK []).
Proof.
  split; [|split].
  - pose proof (generate_products_spec count w) as Hs.
    destruct (generate_products count w) as [[rows w']|e]; [|contradiction].
    exists rows, w'. split; [reflexivity|tauto].
  - pose proof (generate_users_spec count w) as Hs.
    destruct (generate_users count w) as [[rows w']|e].
    + left. exists rows, w'. split; [reflexivity|tauto].
    + right. rewrite Hs. reflexivity.
  - intros Hneg. unfold generate_users, generate_products.
    replace (Z.to_nat count) with O by lia. split; reflexivity.
Qed.

(** * Order items *)

Lemma available_OK d order_created : forall pids l,
  available d order_created pids = OK l ->
  forall pid, In pid l ->
    In pid pids /\ exists t, dict_get pid d = OK t /\ t < order_created.
Proof.
  induction pids as [|p pids IH]; simpl; intros l H pid Hin.
  - inversion H; subst. destruct Hin.
  - destruct (dict_get p d) as [t|e] eqn:Hget; [|discriminate].
    destruct (available d order_created pids) as [l0|e] eqn:Hrest; [|discriminate].
    inversion H; subst; clear H.
    destruct (t <? order_created) eqn:Hlt.
    + destruct Hin as [<-|Hin].
      * split; [auto|]. exists t. split; [exact Hget|]. apply Z.ltb_lt. exact Hlt.
      * destruct (IH l0 eq_refl pid Hin) as [? ?]. auto.
    + destruct (IH l0 eq_refl pid Hin) as [? ?]. auto.
Qed.


Lemma In_list_insert {A} (y v : A) : forall (l : list A) (j : nat),
  In y (<[j := v]> l) -> y = v \/ In y l.
Proof.
  induction l as [|a l IH]; intros [|j]; simpl; try tauto.
  - intros [H|H]; auto.
  - intros [H|H]; [auto|]. apply IH in H. tauto.
Qed.

Lemma In_removelast {A} (y : A) : forall l, In y (removelast l) -> In y l.
Proof.
  induction l as [|a [|b l] IH]; simpl; tauto.
Qed.

Lemma Forall2_In_right {A B} (P : A -> B -> Prop) l l' :
  Forall2 P l l' -> forall y, In y l' -> exists x, In x l /\ P x y.
Proof.
  induction 1 as [|x y0 l l' Hxy _ IH]; simpl; intros y Hy; [destruct Hy|].
  destruct Hy as [<-|Hy].
  - exists x. auto.
  - destruct (IH y Hy) as (x' & Hx' & HP). exists x'. auto.
Qed.

Lemma In_last {A} (d : A) : forall l, l <> [] -> In (List.last l d) l.
Proof.
  induction l as [|a [|b l] IH]; intros Hne; [congruence|left; reflexivity|].
  right. apply IH. discriminate.
Qed.

Lemma sample_pool_OK {A} : forall k (pool : list A) w l w',
  sample_pool k pool w = OK (l, w') -> forall x, In x l -> In x pool.
Proof.
  induction k as [|k IH]; simpl; intros pool w l w' H x Hx.
  - inv_ret H. destruct Hx.
  - destruct pool as [|a pool]; [discriminate|].
    inv_bind H. inv_bind H. inv_ret H.
    destruct Hx as [<-|Hx].
    + apply nth_In.
      assert (0 <= v mod Z.of_nat (length (a :: pool)) < Z.of_nat (length (a :: pool)))
        by (apply Z.mod_pos_bound; simpl length; lia).
      lia.
    + eapply IH in Hrun0; [|exact Hx].
      apply In_removelast, In_list_insert in Hrun0.
      destruct Hrun0 as [->|H]; [apply In_last; discriminate|exact H].
Qed.

Lemma sample_OK {A} (population : list A) k w l w' :
  sample population k w = OK (l, w') -> forall x, In x l -> In x population.
Proof.
  unfold sample.
  destruct ((k <? 0) || (Z.of_nat (length population) <? k)); [discriminate|].
  apply sample_pool_OK.
Qed.

(** The rows one order appends. *)
Lemma order_items_body_OK d pids order w items w' :
  order_items_body d pids order w = OK (items, w') ->
  Forall (fun it =>
            oi_order_id it = id order /\
            1 <= oi_quantity it <= 10 /\
            exists t, dict_get (oi_product_id it) d = OK t /\
                      t < o_created_at (row order)) items.
Proof.
  unfold order_items_body. intros H. inv_bind H.
  apply lift_OK in Hrun. destruct Hrun as [Hav ->].
  destruct v as [|pid0 rest]; [inv_ret H; constructor|].
  inv_bind H. inv_bind H.
  pose proof (sample_OK _ _ _ _ _ Hrun0) as Hsel.
  eapply for_each_OK with
    (P := fun product_id it => oi_order_id it = id order /\
                               1 <= oi_quantity it <= 10 /\
                               oi_product_id it = product_id) in H.
  - apply List.Forall_forall. intros it Hit.
    apply (Forall2_In_right _ _ _ H) in Hit. destruct Hit as (pid & Hpid & Ho & Hq & Hp).
    split; [exact Ho|]. split; [exact Hq|]. rewrite Hp.
    apply Hsel in Hpid.
    destruct (available_OK _ _ _ _ Hav _ Hpid) as [_ Ht]. exact Ht.
  - intros pid w2 it w3 Hb. inv_bind Hb. inv_ret Hb. simpl.
    apply randint_OK in Hrun1. auto.
Qed.



(** On a products frame without rows the column [created_at] is
    missing, and the call raises before it looks at any order. *)
Lemma generate_order_items_no_columns orders_df w :
  generate_order_items orders_df [] w = Raise KeyError.
Proof. reflexivity. Qed.

Lemma generate_order_items_has_rows orders_df products_df w items w' :
  generate_order_items orders_df products_df w = OK (items, w') -> products_df <> [].
Proof. intros H ->. discriminate H. Qed.

Lemma generate_order_items_with_rows orders_df products_df w :
  products_df <> [] ->
  generate_order_items orders_df products_df w =
  let d := to_dict (map (fun p => (id p, p_created_at (row p))) products_df) in
  bind (for_each orders_df (order_items_body d (keys d))) (fun l => ret (concat l)) w.
Proof. destruct products_df; [congruence|reflexivity]. Qed.




(** * Reproducibility *)

(** ** Runs from the same seed, with a later clock *)

Lemma later_ret delta {A} (R : A -> A -> Prop) a1 a2 :
  R a1 a2 -> later_run delta R (ret a1) (ret a2).
Proof. intros H w1 w2 Hw. split; assumption. Qed.

Lemma later_raise delta {A} (R : A -> A -> Prop) e :
  later_run delta R (raise e) (raise e).
Proof. intros w1 w2 Hw. reflexivity. Qed.

Lemma later_bind delta {A B} (RA : A -> A -> Prop) (RB : B -> B -> Prop)
    (c1 c2 : M A) (k1 k2 : A -> M B) :
  later_run delta RA c1 c2 ->
  (forall a1 a2, RA a1 a2 -> later_run delta RB (k1 a1) (k2 a2)) ->
  later_run delta RB (bind c1 k1) (bind c2 k2).
Proof.
  intros Hc Hk w1 w2 Hw. unfold bind. specialize (Hc w1 w2 Hw).
  destruct (c1 w1) as [[a1 v1]|e1], (c2 w2) as [[a2 v2]|e2]; try contradiction.
  - destruct Hc as [Ha Hv]. exact (Hk a1 a2 Ha v1 v2 Hv).
  - exact Hc.
Qed.

Lemma later_weaken delta {A} (R R' : A -> A -> Prop) (c1 c2 : M A) :
  later_run delta R c1 c2 -> (forall a1 a2, R a1 a2 -> R' a1 a2) ->
  later_run delta R' c1 c2.
Proof.
  intros Hc HR w1 w2 Hw. specialize (Hc w1 w2 Hw).
  destruct (c1 w1) as [[a1 v1]|e1], (c2 w2) as [[a2 v2]|e2]; try contradiction.
  - destruct Hc as [Ha Hv]. split; [apply HR, Ha|exact Hv].
  - exact Hc.
Qed.

Lemma later_lift delta {A} (R : A -> A -> Prop) (r1 r2 : Result A) :
  match r1, r2 with
  | OK a1, OK a2 => R a1 a2
  | Raise e1, Raise e2 => e1 = e2
  | _, _ => False
  end ->
  later_run delta R (lift r1) (lift r2).
Proof.
  intros H w1 w2 Hw. unfold lift.
  destruct r1 as [a1|e1], r2 as [a2|e2]; try contradiction; [split; assumption|exact H].
Qed.

Lemma later_next_raw delta : later_run delta eq next_raw next_raw.
Proof.
  intros w1 w2 [[Hr Hrp Hf Hfp Hs] Hc Hcp]. unfold next_raw. simpl. split.
  - rewrite Hrp. apply Hr.
  - repeat constructor; simpl; auto.
Qed.

Lemma later_fake_next delta : later_run delta eq fake_next fake_next.
Proof.
  intros w1 w2 [[Hr Hrp Hf Hfp Hs] Hc Hcp]. unfold fake_next. simpl. split.
  - rewrite Hfp. apply Hf.
  - repeat constructor; simpl; auto.
Qed.

Lemma later_seen delta s : later_run delta eq (seen s) (seen s).
Proof.
  intros w1 w2 Hw. unfold seen. simpl. split; [|exact Hw].
  rewrite (seed_seen _ _ (later_seed _ _ _ Hw)). reflexivity.
Qed.

Lemma later_remember delta s : later_run delta eq (remember s) (remember s).
Proof.
  intros w1 w2 [[Hr Hrp Hf Hfp Hs] Hc Hcp]. unfold remember. simpl. split; [reflexivity|].
  repeat constructor; simpl; auto. congruence.
Qed.

(** The clock of the later run reads [delta] more. *)
Lemma later_datetime_now delta :
  later_run delta (fun t1 t2 => t2 = t1 + delta) datetime_now datetime_now.
Proof.
  intros w1 w2 [[Hr Hrp Hf Hfp Hs] Hc Hcp]. unfold datetime_now. simpl. split.
  - rewrite Hcp. apply Hc.
  - repeat constructor; simpl; auto.
Qed.

Create HintDb later discriminated.
#[local] Hint Resolve later_raise later_next_raw later_fake_next later_seen
  later_remember : later.

(** Steps through computations that draw the same values in both runs. *)
Ltac later_steps :=
  repeat (first [ solve [auto with later]
                | apply later_ret; reflexivity
                | eapply later_bind; [solve [auto with later]|intros ? ? <-] ]).

Lemma later_randint delta a b : later_run delta eq (randint a b) (randint a b).
Proof. unfold randint. destruct (b <? a); later_steps. Qed.

Lemma later_choice delta {A} (l : list A) : later_run delta eq (choice l) (choice l).
Proof. unfold choice. destruct l; later_steps. Qed.

Lemma later_random_below delta num den :
  later_run delta eq (random_below num den) (random_below num den).
Proof. unfold random_below. later_steps. Qed.

Lemma later_uniform_price delta : later_run delta eq uniform_price uniform_price.
Proof. unfold uniform_price. later_steps. Qed.

#[local] Hint Resolve later_randint later_choice later_random_below
  later_uniform_price : later.

Lemma later_sample_pool delta {A} k : forall pool : list A,
  later_run delta eq (sample_pool k pool) (sample_pool k pool).
Proof.
  induction k as [|k IH]; intros pool; simpl; [later_steps|].
  destruct pool; later_steps.
Qed.

Lemma later_sample delta {A} (population : list A) k :
  later_run delta eq (sample population k) (sample population k).
Proof.
  unfold sample. destruct ((k <? 0) || (Z.of_nat (length population) <? k));
    [later_steps|apply later_sample_pool].
Qed.

Lemma later_unique_attempts delta fuel gen :
  later_run delta eq gen gen ->
  later_run delta eq (unique_attempts fuel gen) (unique_attempts fuel gen).
Proof.
  intros Hgen. induction fuel as [|fuel IH]; simpl; [later_steps|].
  eapply later_bind; [exact Hgen|]. intros v ? <-.
  eapply later_bind; [apply later_seen|]. intros [|] ? <-; [exact IH|later_steps].
Qed.

#[local] Hint Resolve later_sample later_unique_attempts : later.

Lemma later_for_range delta {A} (R : A -> A -> Prop) (body1 body2 : M A) n :
  later_run delta R body1 body2 ->
  later_run delta (Forall2 R) (for_range n body1) (for_range n body2).
Proof.
  intros Hb. induction n as [|n IH]; simpl.
  - apply later_ret. constructor.
  - eapply later_bind; [exact Hb|]. intros x1 x2 Hx.
    eapply later_bind; [exact IH|]. intros l1 l2 Hl.
    apply later_ret. constructor; assumption.
Qed.

Lemma later_for_each delta {A B} (RA : A -> A -> Prop) (RB : B -> B -> Prop)
    (body1 body2 : A -> M B) l1 l2 :
  Forall2 RA l1 l2 ->
  (forall a1 a2, RA a1 a2 -> later_run delta RB (body1 a1) (body2 a2)) ->
  later_run delta (Forall2 RB) (for_each l1 body1) (for_each l2 body2).
Proof.
  intros Hl Hb. induction Hl as [|a1 a2 l1 l2 Ha _ IH]; simpl.
  - apply later_ret. constructor.
  - eapply later_bind; [exact (Hb a1 a2 Ha)|]. intros y1 y2 Hy.
    eapply later_bind; [exact IH|]. intros ys1 ys2 Hys.
    apply later_ret. constructor; assumption.
Qed.

Lemma Forall2_map_later {A} (f : A -> A) l1 l2 :
  Forall2 (fun a b => b = f a) l1 l2 -> l2 = map f l1.
Proof. induction 1; simpl; congruence. Qed.

Lemma Forall2_map_self {A} (f : A -> A) l :
  Forall2 (fun a b => b = f a) l (map f l).
Proof. induction l; simpl; constructor; auto. Qed.

Lemma Forall2_eq_eq {A} (l1 l2 : list A) : Forall2 eq l1 l2 -> l1 = l2.
Proof. induction 1; simpl; congruence. Qed.

(** ** Whole days later *)

Lemma replace_later k t h m s :
  replace (t + k * DAY) h m s =
  match replace t h m s with
  | OK v => OK (v + k * DAY)
  | Raise e => Raise e
  end.
Proof.
  unfold replace.
  destruct ((0 <=? h) && (h <=? 23) && (0 <=? m) && (m <=? 59) && (0 <=? s) && (s <=? 59));
    [|reflexivity].
  rewrite date_add_days, add_days_microsecond. f_equal. ring.
Qed.

Lemma later_randomize_time k t :
  later_run (k * DAY) (fun v1 v2 => v2 = v1 + k * DAY)
            (randomize_time t) (randomize_time (t + k * DAY)).
Proof.
  unfold randomize_time.
  eapply later_bind; [apply later_randint|]. intros h ? <-.
  eapply later_bind; [apply later_randint|]. intros m ? <-.
  eapply later_bind; [apply later_randint|]. intros s ? <-.
  apply later_lift. rewrite replace_later.
  destruct (replace t h m s); reflexivity.
Qed.

Lemma later_lifecycle k base_time num den :
  later_run (k * DAY) (fun x1 x2 => x2 = later_triple (k * DAY) x1)
            (lifecycle base_time num den) (lifecycle (base_time + k * DAY) num den).
Proof.
  unfold lifecycle.
  eapply later_bind; [apply later_randint|]. intros d ? <-.
  replace (base_time + k * DAY + d * DAY) with (base_time + d * DAY + k * DAY) by ring.
  eapply later_bind; [apply later_randomize_time|]. intros c ? ->.
  destruct (d =? 90); [apply later_ret; reflexivity|].
  eapply later_bind; [apply later_randint|]. intros r ? <-.
  replace (c + k * DAY + Z.min r (90 - d) * DAY)
    with (c + Z.min r (90 - d) * DAY + k * DAY) by ring.
  eapply later_bind; [apply later_randomize_time|]. intros u ? ->.
  eapply later_bind; [apply later_random_below|]. intros soft ? <-.
  apply later_ret. destruct soft; reflexivity.
Qed.

Lemma later_generate_users k num_users :
  later_run (k * DAY) (fun l1 l2 => l2 = map (later_user (k * DAY)) l1)
            (generate_users num_users) (generate_users num_users).
Proof.
  unfold generate_users.
  eapply later_bind; [apply later_datetime_now|]. intros now ? ->.
  replace (now + k * DAY - 90 * DAY) with (now - 90 * DAY + k * DAY) by ring.
  eapply later_weaken; [|intros l1 l2 Hl; exact (Forall2_map_later _ _ _ Hl)].
  apply later_for_range. unfold user_body.
  eapply later_bind; [apply later_lifecycle|]. intros [[c u] d] ? ->. simpl.
  unfold fake_name, fake_unique_email, fake_address, fake_email.
  eapply later_bind; [apply later_fake_next|]. intros name ? <-.
  eapply later_bind; [apply later_unique_attempts, later_fake_next|]. intros email ? <-.
  eapply later_bind; [apply later_fake_next|]. intros address ? <-.
  apply later_ret. reflexivity.
Qed.

Lemma later_generate_products k num_products :
  later_run (k * DAY) (fun l1 l2 => l2 = map (later_product (k * DAY)) l1)
            (generate_products num_products) (generate_products num_products).
Proof.
  unfold generate_products.
  eapply later_bind; [apply later_datetime_now|]. intros now ? ->.
  replace (now + k * DAY - 90 * DAY) with (now - 90 * DAY + k * DAY) by ring.
  eapply later_weaken; [|intros l1 l2 Hl; exact (Forall2_map_later _ _ _ Hl)].
  apply later_for_range. unfold product_body.
  eapply later_bind; [apply later_choice|]. intros category ? <-.
  eapply later_bind; [apply later_lifecycle|]. intros [[c u] d] ? ->. simpl.
  unfold fake_catch_phrase.
  eapply later_bind; [apply later_fake_next|]. intros name ? <-.
  eapply later_bind; [apply later_uniform_price|]. intros price ? <-.
  apply later_ret. reflexivity.
Qed.

(** ** Dictionaries of later timestamps *)

Lemma dict_set_later delta k v d :
  dict_set k (v + delta) (later_items delta d) = later_items delta (dict_set k v d).
Proof.
  induction d as [|[k' v'] d IH]; simpl; [reflexivity|].
  destruct (k' =? k); simpl; [reflexivity|]. rewrite IH. reflexivity.
Qed.

Lemma to_dict_later delta items :
  to_dict (later_items delta items) = later_items delta (to_dict items).
Proof.
  unfold to_dict. change (@nil (Z * Z)) with (later_items delta []) at 1.
  generalize (@nil (Z * Z)) as acc.
  induction items as [|[k v] items IH]; intros acc; simpl; [reflexivity|].
  rewrite dict_set_later. apply IH.
Qed.

Lemma keys_later delta d : keys (later_items delta d) = keys d.
Proof. unfold keys, later_items. rewrite map_map. reflexivity. Qed.

Lemma dict_get_later delta k d :
  dict_get k (later_items delta d) =
  match dict_get k d with
  | OK v => OK (v + delta)
  | Raise e => Raise e
  end.
Proof.
  induction d as [|[k' v] d IH]; simpl; [reflexivity|].
  destruct (k' =? k); [reflexivity|exact IH].
Qed.

Lemma available_later delta d order_created pids :
  available (later_items delta d) (order_created + delta) pids =
  available d order_created pids.
Proof.
  induction pids as [|pid pids IH]; simpl; [reflexivity|].
  rewrite dict_get_later, IH. destruct (dict_get pid d) as [t|e]; [|reflexivity].
  destruct (available d order_created pids) as [l|e]; [|reflexivity].
  replace (t + delta <? order_created + delta) with (t <? order_created); [reflexivity|].
  destruct (Z.ltb_spec t order_created), (Z.ltb_spec (t + delta) (order_created + delta));
    try reflexivity; lia.
Qed.

(** ** Orders, a later clock and later users *)

Lemma older_than_later delta now age users_df :
  older_than (now + delta) age (map (with_row (later_user delta)) users_df) =
  map (with_row (later_user delta)) (older_than now age users_df).
Proof.
  unfold older_than.
  induction users_df as [|u users_df IH]; simpl; [reflexivity|].
  replace (u_created_at (row u) + delta <? now + delta - age * DAY)
    with (u_created_at (row u) <? now - age * DAY).
  - destruct (u_created_at (row u) <? now - age * DAY); simpl; rewrite IH; reflexivity.
  - destruct (Z.ltb_spec (u_created_at (row u)) (now - age * DAY)),
             (Z.ltb_spec (u_created_at (row u) + delta) (now + delta - age * DAY));
      try reflexivity; lia.
Qed.

Lemma created_at_items_later delta (users_df : list (WithId UserRow)) :
  map (fun u => (id u, u_created_at (row u))) (map (with_row (later_user delta)) users_df) =
  later_items delta (map (fun u => (id u, u_created_at (row u))) users_df).
Proof. unfold later_items. rewrite !map_map. reflexivity. Qed.

Lemma days_between_later delta a b : days_between (a + delta) (b + delta) = days_between a b.
Proof. unfold days_between. f_equal. ring. Qed.

Lemma later_ensure_after delta created_at user_created :
  later_run delta (fun v1 v2 => v2 = v1 + delta)
            (ensure_after created_at user_created)
            (ensure_after (created_at + delta) (user_created + delta)).
Proof.
  unfold ensure_after.
  replace (created_at + delta <=? user_created + delta) with (created_at <=? user_created).
  - destruct (created_at <=? user_created); [|apply later_ret; reflexivity].
    eapply later_bind; [apply later_randint|]. intros h ? <-.
    apply later_ret. ring.
  - destruct (Z.leb_spec created_at user_created),
             (Z.leb_spec (created_at + delta) (user_created + delta)); try reflexivity; lia.
Qed.

Lemma later_place_order k users_df base_time age lo hi :
  later_run (k * DAY) (fun x1 x2 => x2 = (fst x1, snd x1 + k * DAY))
            (place_order users_df base_time age lo hi)
            (place_order (map (with_row (later_user (k * DAY))) users_df)
                         (base_time + k * DAY) age lo hi).
Proof.
  unfold place_order.
  eapply later_bind; [apply later_datetime_now|]. intros now ? ->.
  rewrite older_than_later, created_at_items_later, to_dict_later, keys_later.
  eapply later_bind; [apply later_choice|]. intros user_id ? <-.
  eapply later_bind with (RA := fun v1 v2 => v2 = v1 + k * DAY).
  { apply later_lift. rewrite dict_get_later.
    destruct (dict_get user_id _); reflexivity. }
  intros user_created ? ->. rewrite days_between_later.
  eapply later_bind; [apply later_randint|]. intros d ? <-.
  replace (base_time + k * DAY + d * DAY) with (base_time + d * DAY + k * DAY) by ring.
  eapply later_bind; [apply later_randomize_time|]. intros c ? ->.
  eapply later_bind; [apply later_ensure_after|]. intros c' ? ->.
  apply later_ret. reflexivity.
Qed.

Lemma later_order_body k users_df base_time :
  later_run (k * DAY) (fun o1 o2 => o2 = later_order (k * DAY) o1)
            (order_body users_df base_time)
            (order_body (map (with_row (later_user (k * DAY))) users_df)
                        (base_time + k * DAY)).
Proof.
  unfold order_body.
  eapply later_bind; [apply later_choice|]. intros status ? <-.
  destruct (String.eqb status "pending"); [|destruct (String.eqb status "shipped")];
    (eapply later_bind; [apply later_place_order|]; intros [user_id c] ? ->; simpl).
  - apply later_ret. reflexivity.
  - eapply later_bind; [apply later_randint|]. intros r ? <-.
    replace (c + k * DAY + r * DAY) with (c + r * DAY + k * DAY) by ring.
    eapply later_bind; [apply later_randomize_time|]. intros u ? ->.
    apply later_ret. reflexivity.
  - eapply later_bind; [apply later_randint|]. intros r ? <-.
    replace (c + k * DAY + r * DAY) with (c + r * DAY + k * DAY) by ring.
    eapply later_bind; [apply later_randomize_time|]. intros u ? ->.
    apply later_ret. reflexivity.
Qed.

Lemma later_generate_orders k users_df num_orders :
  later_run (k * DAY) (fun l1 l2 => l2 = map (later_order (k * DAY)) l1)
            (generate_orders users_df num_orders)
            (generate_orders (map (with_row (later_user (k * DAY))) users_df) num_orders).
Proof.
  unfold generate_orders.
  eapply later_bind; [apply later_datetime_now|]. intros now ? ->.
  replace (now + k * DAY - 90 * DAY) with (now - 90 * DAY + k * DAY) by ring.
  eapply later_weaken; [|intros l1 l2 Hl; exact (Forall2_map_later _ _ _ Hl)].
  apply later_for_range, later_order_body.
Qed.

(** ** Order items: the same rows *)

Lemma later_order_items_body delta d pids order :
  later_run delta eq
            (order_items_body d pids order)
            (order_items_body (later_items delta d) pids (with_row (later_order delta) order)).
Proof.
  unfold order_items_body. simpl. rewrite available_later.
  eapply later_bind with (RA := eq).
  { apply later_lift. destruct (available d _ pids); reflexivity. }
  intros l ? <-. destruct l as [|pid rest]; [apply later_ret; reflexivity|].
  eapply later_bind; [apply later_randint|]. intros num_items ? <-.
  eapply later_bind; [apply later_sample|]. intros selected ? <-.
  eapply later_weaken; [|intros l1 l2 Hl; exact (Forall2_eq_eq _ _ Hl)].
  apply later_for_each with (RA := eq).
  - clear. induction selected; constructor; auto.
  - intros product_id ? <-.
    eapply later_bind; [apply later_randint|]. intros quantity ? <-.
    apply later_ret. reflexivity.
Qed.

Lemma created_at_by_id_later delta products_df :
  created_at_by_id (map (with_row (later_product delta)) products_df) =
  match created_at_by_id products_df with
  | OK d => OK (later_items delta d)
  | Raise e => Raise e
  end.
Proof.
  destruct products_df as [|p rest]; [reflexivity|].
  unfold created_at_by_id.
  change (map (with_row (later_product delta)) (p :: rest))
    with (with_row (later_product delta) p :: map (with_row (later_product delta)) rest).
  cbv iota. f_equal. rewrite <- to_dict_later. f_equal.
  unfold later_items. rewrite map_map.
  change (with_row (later_product delta) p :: map (with_row (later_product delta)) rest)
    with (map (with_row (later_product delta)) (p :: rest)).
  rewrite map_map. reflexivity.
Qed.

Lemma later_generate_order_items delta orders_df products_df :
  later_run delta eq
            (generate_order_items orders_df products_df)
            (generate_order_items (map (with_row (later_order delta)) orders_df)
                                  (map (with_row (later_product delta)) products_df)).
Proof.
  unfold generate_order_items.
  eapply later_bind with (RA := fun d1 d2 => d2 = later_items delta d1).
  { apply later_lift. rewrite created_at_by_id_later.
    destruct (created_at_by_id products_df); reflexivity. }
  intros d ? ->. rewrite keys_later.
  eapply later_bind with (RA := eq); [|intros per_order ? <-; apply later_ret; reflexivity].
  eapply later_weaken; [|intros l1 l2 Hl; exact (Forall2_eq_eq _ _ Hl)].
  apply later_for_each with (RA := fun o1 o2 => o2 = with_row (later_order delta) o1).
  - apply Forall2_map_self.
  - intros order ? ->. apply later_order_items_body.
Qed.

(** ** The whole sequence *)

Lemma assign_ids_map {A} (f : A -> A) : forall ids rows,
  assign_ids ids (map f rows) = map (with_row f) (assign_ids ids rows).
Proof.
  unfold assign_ids. induction ids as [|i ids IH]; intros [|r rows]; simpl; try reflexivity.
  rewrite IH. reflexivity.
Qed.

Lemma later_generate_all k num_users num_products num_orders :
  later_run (k * DAY) (fun t1 t2 => t2 = later_tables (k * DAY) t1)
            (generate_all num_users num_products num_orders)
            (generate_all num_users num_products num_orders).
Proof.
  unfold generate_all.
  eapply later_bind; [apply later_generate_users|]. intros users ? ->.
  rewrite length_map, assign_ids_map.
  eapply later_bind; [apply later_generate_products|]. intros products ? ->.
  rewrite length_map, assign_ids_map.
  eapply later_bind; [apply later_generate_orders|]. intros orders ? ->.
  rewrite length_map, assign_ids_map.
  eapply later_bind; [apply later_generate_order_items|]. intros order_items ? <-.
  apply later_ret. reflexivity.
Qed.

(** A shift by no time at all changes nothing. *)
Lemma map_fixed {A} (f : A -> A) l : (forall x, f x = x) -> map f l = l.
Proof. intros Hf. induction l as [|x l IH]; simpl; [reflexivity|]. rewrite Hf, IH. reflexivity. Qed.

Lemma later_tables_0 t : later_tables 0 t = t.
Proof.
  destruct t as [us ps os ois]. unfold later_tables. simpl. f_equal; apply map_fixed.
  - intros [i [n e a c u [d|]]]; unfold with_row, later_user; simpl;
      rewrite ?Z.add_0_r; reflexivity.
  - intros [i [n c p cr u [d|]]]; unfold with_row, later_product; simpl;
      rewrite ?Z.add_0_r; reflexivity.
  - intros [i [uid s c u]]; unfold with_row, later_order; simpl;
      rewrite ?Z.add_0_r; reflexivity.
Qed.

(** C3, as the claim states it, fails: with the random generator and
    Faker seeded alike, a run of the full sequence (one user, one
    product, one order; each of the four tables gets a row) whose clock
    reads one microsecond later returns other tables: every timestamp
    keeps the microsecond of the clock reading it was derived from. *)
Lemma same_seed_other_clock_other_tables :
  same_seed run_at_noon run_just_after_noon /\
  value (generate_all 1 1 1 run_at_noon) = OK whole_run_tables /\
  value (generate_all 1 1 1 run_just_after_noon) = OK (later_tables 1 whole_run_tables) /\
  value (generate_all 1 1 1 run_at_noon) <> value (generate_all 1 1 1 run_just_after_noon).
Proof.
  split; [constructor; reflexivity|].
  split; [vm_compute; reflexivity|].
  split; [vm_compute; reflexivity|].
  vm_compute. intros H. discriminate H.
Qed.

(** C3, amended. The output tables are a function of the seed and of the
    readings of the clock, and they follow the clock: of two runs of the
    full generation sequence from the same seed, the second reading a
    clock that is [k] whole days ahead of the first's at every reading,
    the second raises the exception the first raises, or returns the
    tables of the first with every [created_at], [updated_at] and
    [deleted_at] of users, products and orders [k] days later and the
    same order items. In particular the tables are identical when the
    clocks read the same ([k = 0]). *)
Theorem same_seed_later_clock_later_tables num_users num_products num_orders k w1 w2 :
  later_world (k * DAY) w1 w2 ->
  value (generate_all num_users num_products num_orders w2) =
  later_result (k * DAY) (value (generate_all num_users num_products num_orders w1)) /\
  (k = 0 ->
   value (generate_all num_users num_products num_orders w2) =
   value (generate_all num_users num_products num_orders w1)).
Proof.
  intros Hw.
  assert (Hshift : value (generate_all num_users num_products num_orders w2) =
                   later_result (k * DAY)
                     (value (generate_all num_users num_products num_orders w1))).
  { pose proof (later_generate_all k num_users num_products num_orders w1 w2 Hw) as H.
    destruct (generate_all num_users num_products num_orders w1) as [[t1 v1]|e1],
             (generate_all num_users num_products num_orders w2) as [[t2 v2]|e2];
      simpl; try contradiction.
    - destruct H as [-> _]. reflexivity.
    - subst. reflexivity. }
  split; [exact Hshift|].
  intros ->. rewrite Hshift.
  destruct (value (generate_all num_users num_products num_orders w1)) as [t|e]; simpl;
    [rewrite later_tables_0|]; reflexivity.
Qed.

Lemma same_seed_later_clock_later_tables_witness :
  later_world (3 * DAY) run_at_noon run_three_days_later /\
  value (generate_all 1 1 1 run_at_noon) = OK whole_run_tables /\
  value (generate_all 1 1 1 run_three_days_later) = OK (later_tables (3 * DAY) whole_run_tables).
Proof.
  assert (Hw : later_world (3 * DAY) run_at_noon run_three_days_later).
  { constructor; [constructor; reflexivity| |reflexivity]. intros i. reflexivity. }
  assert (Hrun : value (generate_all 1 1 1 run_at_noon) = OK whole_run_tables).
  { vm_compute. reflexivity. }
  split; [exact Hw|]. split; [exact Hrun|].
  exact (eq_trans
           (proj1 (same_seed_later_clock_later_tables 1 1 1 3 run_at_noon run_three_days_later Hw))
           (f_equal (later_result (3 * DAY)) Hrun)).
Defined.

(** * Schema provisioning *)

Lemma schemas_drop_all ns : forall db, schemas (drop_all ns db) = schemas db.
Proof. induction ns as [|n ns IH]; intros db; simpl; [reflexivity|]. rewrite IH. reflexivity. Qed.

Lemma lookup_drop_all ns : forall db j,
  tables (drop_all ns db) !! j =
  if bool_decide (j ∈ ns) then None else drop_all_references ns <$> (tables db !! j).
Proof.
  induction ns as [|n ns IH]; intros db j; simpl.
  - destruct (tables db !! j); reflexivity.
  - rewrite IH. simpl. rewrite lookup_fmap.
    destruct (decide (j = n)) as [->|Hne].
    + rewrite lookup_delete_eq. simpl.
      rewrite (bool_decide_eq_true_2 (n ∈ n :: ns)) by (apply elem_of_cons; auto).
      destruct (bool_decide (n ∈ ns)); reflexivity.
    + rewrite lookup_delete_ne by congruence.
      rewrite (bool_decide_ext (j ∈ n :: ns) (j ∈ ns))
        by (rewrite elem_of_cons; tauto).
      destruct (bool_decide (j ∈ ns)); [reflexivity|].
      destruct (tables db !! j); reflexivity.
Qed.

Lemma filter_not_in_cons (n : TableName) ns (l : list TableName) :
  List.filter (fun r => negb (bool_decide (r ∈ ns)))
              (List.filter (fun r => negb (bool_decide (r = n))) l) =
  List.filter (fun r => negb (bool_decide (r ∈ n :: ns))) l.
Proof.
  induction l as [|r l IH]; simpl; [reflexivity|].
  destruct (decide (r = n)) as [->|Hne].
  - rewrite (bool_decide_eq_true_2 (n = n)) by reflexivity.
    rewrite (bool_decide_eq_true_2 (n ∈ n :: ns)) by (apply elem_of_cons; auto).
    simpl. exact IH.
  - rewrite (bool_decide_eq_false_2 (r = n)) by assumption. simpl.
    rewrite (bool_decide_ext (r ∈ n :: ns) (r ∈ ns)) by (rewrite elem_of_cons; tauto).
    destruct (bool_decide (r ∈ ns)); simpl; congruence.
Qed.

Lemma filter_all {A} (l : list A) : List.filter (fun _ => true) l = l.
Proof. induction l; simpl; congruence. Qed.

Lemma columns_drop_all_references ns : forall t,
  t_columns (drop_all_references ns t) = t_columns t /\
  t_rows (drop_all_references ns t) = t_rows t /\
  t_references (drop_all_references ns t) =
    List.filter (fun r => negb (bool_decide (r ∈ ns))) (t_references t).
Proof.
  induction ns as [|n ns IH]; intros t; simpl.
  - repeat split. symmetry. apply filter_all.
  - destruct (IH (drop_references n t)) as (Hc & Hr & Hf).
    rewrite Hc, Hr, Hf. simpl. repeat split. apply filter_not_in_cons.
Qed.

Lemma filter_twice {A} (f : A -> bool) l :
  List.filter f (List.filter f l) = List.filter f l.
Proof.
  induction l as [|a l IH]; simpl; [reflexivity|].
  destruct (f a) eqn:E; simpl; [rewrite E, IH|]; auto.
Qed.

Lemma drop_all_references_twice ns t :
  drop_all_references ns (drop_all_references ns t) = drop_all_references ns t.
Proof.
  destruct (columns_drop_all_references ns t) as (Hc & Hr & Hf).
  destruct (columns_drop_all_references ns (drop_all_references ns t)) as (Hc' & Hr' & Hf').
  rewrite Hf, filter_twice, <- Hf in Hf'. rewrite Hc in Hc'. rewrite Hr in Hr'.
  destruct (drop_all_references ns (drop_all_references ns t)),
           (drop_all_references ns t). simpl in *. congruence.
Qed.

Lemma lookup_insert_all_other defs : forall m j,
  j ∉ map td_name defs -> insert_all defs m !! j = m !! j.
Proof.
  induction defs as [|d defs IH]; intros m j Hj; simpl; [reflexivity|].
  simpl in Hj. apply not_elem_of_cons in Hj. destruct Hj as [Hne Hj].
  rewrite IH by exact Hj. apply lookup_insert_ne. congruence.
Qed.

Lemma lookup_insert_all defs : forall m d,
  NoDup (map td_name defs) -> d ∈ defs ->
  insert_all defs m !! td_name d = Some (empty_table d).
Proof.
  induction defs as [|d0 defs IH]; intros m d Hnd Hd; simpl.
  - apply elem_of_nil in Hd. destruct Hd.
  - simpl in Hnd. apply NoDup_cons in Hnd. destruct Hnd as [Hfresh Hnd].
    apply elem_of_cons in Hd. destruct Hd as [->|Hd].
    + rewrite lookup_insert_all_other by exact Hfresh. apply lookup_insert_eq.
    + apply IH; assumption.
Qed.

(** A list of [CREATE TABLE] statements succeeds on a database that has
    the schemas and none of the tables. *)
Lemma create_all_OK defs : forall db created,
  Forall (fun d => fst (td_name d) ∈ schemas db) defs ->
  Forall (fun d => tables db !! td_name d = None) defs ->
  NoDup (map td_name defs) ->
  references_created created defs = true ->
  (forall r, r ∈ created -> is_Some (tables db !! r)) ->
  create_all defs db = OK (mkDatabase (schemas db) (insert_all defs (tables db))).
Proof.
  induction defs as [|d defs IH]; intros db created Hs Hf Hnd Hrefs Hcreated; simpl.
  - destruct db; reflexivity.
  - apply Forall_cons in Hs. destruct Hs as [Hs0 Hs].
    apply Forall_cons in Hf. destruct Hf as [Hf0 Hf].
    simpl in Hnd. apply NoDup_cons in Hnd. destruct Hnd as [Hfresh Hnd].
    simpl in Hrefs. apply andb_prop in Hrefs. destruct Hrefs as [Hr0 Hrefs].
    unfold create_table. rewrite bool_decide_eq_true_2 by exact Hs0. rewrite Hf0.
    replace (forallb _ (td_references d)) with true.
    + simpl. erewrite IH; [reflexivity|..]; simpl; try assumption.
      * eapply List.Forall_impl; [|apply Forall_and; split; [exact Hf|]].
        2:{ apply List.Forall_forall. intros x Hx. exact Hx. }
        simpl. intros x [Hx Hin]. rewrite lookup_insert_ne; [exact Hx|].
        intros Heq. apply Hfresh. rewrite Heq. apply list_elem_of_In.
        apply in_map. exact Hin.
      * exact Hrefs.
      * intros r Hr. apply elem_of_cons in Hr. destruct Hr as [->|Hr].
        -- rewrite lookup_insert_eq. eauto.
        -- destruct (decide (td_name d = r)) as [->|Hne].
           ++ rewrite lookup_insert_eq. eauto.
           ++ rewrite lookup_insert_ne by exact Hne. apply Hcreated. exact Hr.
    + symmetry. apply forallb_forall. intros r Hr.
      rewrite forallb_forall in Hr0. specialize (Hr0 r Hr).
      apply bool_decide_eq_true_1 in Hr0. apply bool_decide_eq_true_2.
      apply Hcreated. exact Hr0.
Qed.

Lemma database_eq (a b : Database) :
  schemas a = schemas b -> tables a = tables b -> a = b.
Proof. destruct a, b. simpl. intros -> ->. reflexivity. Qed.

(** Dropping and creating again, right after having dropped and created. *)
Lemma drop_all_after_insert_all ns defs db :
  Forall (fun d => td_name d ∈ ns) defs ->
  drop_all ns (mkDatabase (schemas db) (insert_all defs (tables (drop_all ns db)))) =
  drop_all ns db.
Proof.
  intros Hnames. apply database_eq.
  - rewrite !schemas_drop_all. reflexivity.
  - apply map_eq. intros j. rewrite !lookup_drop_all. simpl.
    destruct (bool_decide (j ∈ ns)) eqn:Hj; [reflexivity|].
    apply bool_decide_eq_false_1 in Hj.
    rewrite lookup_insert_all_other.
    + rewrite lookup_drop_all, bool_decide_eq_false_2 by exact Hj.
      destruct (tables db !! j) as [t|]; simpl; [|reflexivity].
      rewrite drop_all_references_twice. reflexivity.
    + intros Hin. apply Hj. apply list_elem_of_In, in_map_iff in Hin.
      destruct Hin as (d & <- & Hd). rewrite List.Forall_forall in Hnames.
      apply Hnames. exact Hd.
Qed.

Lemma provision_twice ns defs db :
  Forall (fun d => td_name d ∈ ns) defs ->
  Forall (fun d => fst (td_name d) ∈ schemas db) defs ->
  NoDup (map td_name defs) ->
  references_created [] defs = true ->
  exists db1,
    create_all defs (drop_all ns db) = OK db1 /\
    create_all defs (drop_all ns db1) = OK db1 /\
    provisioned defs db1 /\
    schemas db1 = schemas db.
Proof.
  intros Hnames Hschemas Hnd Hrefs.
  exists (mkDatabase (schemas db) (insert_all defs (tables (drop_all ns db)))).
  assert (Hfirst : create_all defs (drop_all ns db) =
                   OK (mkDatabase (schemas db) (insert_all defs (tables (drop_all ns db))))).
  { erewrite create_all_OK with (created := []).
    - rewrite schemas_drop_all. reflexivity.
    - rewrite schemas_drop_all. exact Hschemas.
    - eapply List.Forall_impl; [|exact Hnames]. simpl. intros d Hd.
      rewrite lookup_drop_all, bool_decide_eq_true_2 by exact Hd. reflexivity.
    - exact Hnd.
    - exact Hrefs.
    - intros r Hr. apply elem_of_nil in Hr. destruct Hr. }
  split; [exact Hfirst|]. split; [|split; [|reflexivity]].
  - rewrite drop_all_after_insert_all by exact Hnames. exact Hfirst.
  - apply List.Forall_forall. intros d Hd. simpl.
    apply lookup_insert_all; [exact Hnd|]. apply list_elem_of_In. exact Hd.
Qed.

Lemma create_source_tables_bulk conn :
  create_source_tables conn =
  and_then (create_all source_tables
              (drop_all [public "order_items"; public "orders";
                         public "products"; public "users"] (session conn)))
           (fun db => OK (mkConnection db db)).
Proof.
  unfold create_source_tables, source_tables, drop_all, create_all, fold_left, commit.
  repeat match goal with
         | |- context [create_table ?d ?db] =>
             destruct (create_table d db); simpl; try reflexivity
         end.
Qed.

Lemma create_warehouse_tables_bulk conn :
  create_warehouse_tables conn =
  and_then (create_all warehouse_tables
              (drop_all [("raw_ingest", "order_items"); ("raw_ingest", "orders");
                         ("raw_ingest", "products"); ("raw_ingest", "users");
                         ("raw_current", "order_items"); ("raw_current", "orders");
                         ("raw_current", "products"); ("raw_current", "users")]
                 (create_schema_if_not_exists "raw_current"
                    (create_schema_if_not_exists "raw_ingest" (session conn)))))
           (fun db => OK (mkConnection db db)).
Proof.
  unfold create_warehouse_tables, warehouse_tables, drop_all, create_all, fold_left, commit.
  repeat match goal with
         | |- context [create_table ?d ?db] =>
             destruct (create_table d db); simpl; try reflexivity
         end.
Qed.

Lemma create_schema_again s db :
  s ∈ schemas db -> create_schema_if_not_exists s db = db.
Proof.
  intros Hs. apply database_eq; [|reflexivity]. simpl.
  apply subseteq_union_1_L, singleton_subseteq_l. exact Hs.
Qed.

(** Without the schema [public] the first [CREATE TABLE] fails. *)
Example create_source_tables_needs_public :
  create_source_tables blank_connection = Raise InvalidSchemaName.
Proof. vm_compute. reflexivity. Qed.

(** C9. Schema provisioning is idempotent. On a source database that
    has the default schema, and on any warehouse database,
    [create_source_tables] and [create_warehouse_tables] succeed, leave
    every table of their schema in place with no rows, and succeed again
    when run a second time in a row, without a duplicate-table error and
    leaving the connection exactly as the first run left it. *)
Theorem schema_provisioning_idempotent (src dwh : Connection) :
  "public" ∈ schemas (session src) ->
  exists src1 dwh1,
    create_source_tables src = OK src1 /\
    create_source_tables src1 = OK src1 /\
    provisioned source_tables (session src1) /\
    create_warehouse_tables dwh = OK dwh1 /\
    create_warehouse_tables dwh1 = OK dwh1 /\
    provisioned warehouse_tables (session dwh1).
Proof.
  intros Hpublic.
  destruct (provision_twice
              [public "order_items"; public "orders"; public "products"; public "users"]
              source_tables (session src))
    as (sdb1 & Hs1 & Hs2 & Hs3 & _).
  { apply (bool_decide_unpack _). vm_compute. exact I. }
  { unfold source_tables.
    repeat (apply List.Forall_cons; [exact Hpublic|]). apply List.Forall_nil. }
  { apply (bool_decide_unpack _). vm_compute. exact I. }
  { reflexivity. }
  pose (wdb := create_schema_if_not_exists "raw_current"
                 (create_schema_if_not_exists "raw_ingest" (session dwh))).
  assert (Hingest : "raw_ingest" ∈ schemas wdb).
  { simpl. apply elem_of_union. right. apply elem_of_union. left.
    apply elem_of_singleton. reflexivity. }
  assert (Hcurrent : "raw_current" ∈ schemas wdb).
  { simpl. apply elem_of_union. left. apply elem_of_singleton. reflexivity. }
  destruct (provision_twice
              [("raw_ingest", "order_items"); ("raw_ingest", "orders");
               ("raw_ingest", "products"); ("raw_ingest", "users");
               ("raw_current", "order_items"); ("raw_current", "orders");
               ("raw_current", "products"); ("raw_current", "users")]
              warehouse_tables wdb)
    as (wdb1 & Hw1 & Hw2 & Hw3 & Hschemas).
  { apply (bool_decide_unpack _). vm_compute. exact I. }
  { unfold warehouse_tables.
    repeat (apply List.Forall_cons; [first [exact Hingest|exact Hcurrent]|]).
    apply List.Forall_nil. }
  { apply (bool_decide_unpack _). vm_compute. exact I. }
  { reflexivity. }
  rewrite <- Hschemas in Hingest, Hcurrent.
  exists (mkConnection sdb1 sdb1), (mkConnection wdb1 wdb1).
  split; [|split; [|split; [|split; [|split]]]].
  - rewrite create_source_tables_bulk, Hs1. reflexivity.
  - rewrite create_source_tables_bulk. cbn [session]. rewrite Hs2. reflexivity.
  - exact Hs3.
  - rewrite create_warehouse_tables_bulk. fold wdb. rewrite Hw1. reflexivity.
  - rewrite create_warehouse_tables_bulk. cbn [session].
    rewrite (create_schema_again "raw_ingest" wdb1 Hingest).
    rewrite (create_schema_again "raw_current" wdb1 Hcurrent).
    rewrite Hw2. reflexivity.
  - exact Hw3.
Qed.

Lemma schema_provisioning_idempotent_witness :
  exists src1 dwh1,
    create_source_tables used_connection = OK src1 /\
    create_source_tables src1 = OK src1 /\
    provisioned source_tables (session src1) /\
    create_warehouse_tables blank_connection = OK dwh1 /\
    create_warehouse_tables dwh1 = OK dwh1 /\
    provisioned warehouse_tables (session dwh1).
Proof.
  apply (schema_provisioning_idempotent used_connection blank_connection).
  change ("public" ∈ ({["public"]} : gset string)).
  apply elem_of_singleton_2. reflexivity.
Defined.

(** * Further properties of the generators *)

(** ** Orders: windows and delays *)

Lemma ensure_after_not_earlier created_at user_created w v w' :
  ensure_after created_at user_created w = OK (v, w') -> created_at <= v.
Proof.
  unfold ensure_after. destruct (created_at <=? user_created) eqn:E; intros H.
  - apply Z.leb_le in E. inv_bind H. inv_ret H. apply randint_OK in Hrun.
    unfold HOUR, SECOND. lia.
  - inv_ret H. lia.
Qed.

Lemma place_order_window users_df base_time age lo hi w user_id created_at w' :
  place_order users_df base_time age lo hi w = OK ((user_id, created_at), w') ->
  date base_time + lo <= date created_at.
Proof.
  unfold place_order. intros H.
  inv_bind H. inv_bind H. inv_bind H. inv_bind H. inv_bind H. inv_bind H.
  inversion H; subst; clear H.
  apply randint_OK in Hrun2. apply randomize_time_OK in Hrun3.
  apply ensure_after_not_earlier in Hrun4. apply date_mono in Hrun4.
  rewrite date_add_days in Hrun3. lia.
Qed.

Lemma order_body_window users_df base_time w o w' :
  order_body users_df base_time w = OK (o, w') ->
  date base_time + window_start (o_status o) <= date (o_created_at o) /\
  (o_status o = "shipped" -> 1 <= days_apart (o_created_at o) (o_updated_at o) <= 5) /\
  (o_status o = "completed" \/ o_status o = "cancelled" ->
   5 <= days_apart (o_created_at o) (o_updated_at o) <= 15).
Proof.
  unfold order_body, window_start, days_apart. intros H. inv_bind H. rename v into status.
  destruct (String.eqb status "pending") eqn:Ep;
    [|destruct (String.eqb status "shipped") eqn:Es].
  - inv_bind H. destruct v as [user_id created_at]. inv_ret H. simpl. rewrite Ep.
    apply place_order_window in Hrun0. apply String.eqb_eq in Ep. subst status.
    split; [exact Hrun0|]. split; [discriminate|intros [?|?]; discriminate].
  - inv_bind H. destruct v as [user_id created_at].
    inv_bind H. inv_bind H. inv_ret H. simpl. rewrite Ep, Es.
    apply place_order_window in Hrun0. apply randint_OK in Hrun1.
    apply randomize_time_OK in Hrun2. rewrite date_add_days in Hrun2.
    apply String.eqb_eq in Es. subst status.
    split; [exact Hrun0|]. split; [intros _; lia|intros [?|?]; discriminate].
  - inv_bind H. destruct v as [user_id created_at].
    inv_bind H. inv_bind H. inv_ret H. simpl. rewrite Ep, Es.
    apply place_order_window in Hrun0. apply randint_OK in Hrun1.
    apply randomize_time_OK in Hrun2. rewrite date_add_days in Hrun2.
    split; [exact Hrun0|]. split; [|intros _; lia].
    intros ->. discriminate.
Qed.



(** X2. The update of an order follows its creation by a number of
    calendar days fixed by the status: 1 to 5 days for a shipped order,
    5 to 15 days for a completed or cancelled one (and none for a pending
    one, whose two timestamps are equal). *)
Theorem orders_update_delay users_df num_orders w rows w' :
  generate_orders users_df num_orders w = OK (rows, w') ->
  Forall (fun o =>
            (o_status o = "shipped" ->
             1 <= days_apart (o_created_at o) (o_updated_at o) <= 5) /\
            (o_status o = "completed" \/ o_status o = "cancelled" ->
             5 <= days_apart (o_created_at o) (o_updated_at o) <= 15)) rows.
Proof.
  unfold generate_orders. intros H. inv_bind H.
  eapply for_range_OK in H; [exact (proj2 H)|]. cbv beta.
  intros w1 o w2 Hbody. apply order_body_window in Hbody. tauto.
Qed.

Lemma orders_update_delay_witness :
  exists rows,
    value (generate_orders two_users 2 orders_world) = OK rows /\
    Forall (fun o =>
              (o_status o = "shipped" ->
               1 <= days_apart (o_created_at o) (o_updated_at o) <= 5) /\
              (o_status o = "completed" \/ o_status o = "cancelled" ->
               5 <= days_apart (o_created_at o) (o_updated_at o) <= 15)) rows.
Proof.
  destruct (generate_orders two_users 2 orders_world) as [[rows w']|e] eqn:Hrun;
    [|vm_compute in Hrun; discriminate].
  exists rows. split; [reflexivity|].
  exact (orders_update_delay two_users 2 orders_world rows w' Hrun).
Defined.

(** ** Users and products: the lifecycle triple *)

Lemma spec_lifecycle_shape now num den E :
  spec (lifecycle (now - 90 * DAY) num den) (lifecycle_shape now) E.
Proof.
  unfold lifecycle.
  eapply spec_bind; [apply spec_randint; lia|]. intros d Hd.
  eapply spec_bind; [apply spec_randomize_time|]. intros c Hc.
  rewrite date_add_days in Hc.
  replace (now - 90 * DAY) with (now + (-90) * DAY) in Hc by ring.
  rewrite date_add_days in Hc. simpl in Hd.
  destruct (d =? 90) eqn:E90.
  - apply spec_ret. unfold lifecycle_shape.
    split; [lia|]. split; [discriminate|]. auto.
  - apply Z.eqb_neq in E90.
    eapply spec_bind; [apply spec_randint; lia|]. intros r Hr.
    eapply spec_bind; [apply spec_randomize_time|]. intros u Hu.
    rewrite date_add_days in Hu. simpl in Hr.
    eapply spec_bind; [apply spec_random_below|].
    intros soft _. apply spec_ret. unfold lifecycle_shape.
    split; [lia|]. split; [|lia].
    intros t Ht. destruct soft; inversion Ht. reflexivity.
Qed.

Lemma spec_user_body_shape now :
  spec (user_body (now - 90 * DAY))
       (fun u => lifecycle_shape now (user_lifecycle u))
       (fun _ => True).
Proof.
  unfold user_body.
  eapply spec_bind; [apply spec_lifecycle_shape|]. intros [[c u] d] Hshape.
  eapply spec_bind; [apply spec_fake_next|]. intros name _.
  eapply spec_bind; [apply spec_unique_attempts; [apply spec_fake_next|exact I]|].
  intros email _.
  eapply spec_bind; [apply spec_fake_next|]. intros address _.
  apply spec_ret. exact Hshape.
Qed.

Lemma spec_product_body_shape now :
  spec (product_body (now - 90 * DAY))
       (fun p => lifecycle_shape now (product_lifecycle p))
       (fun _ => True).
Proof.
  unfold product_body.
  eapply spec_bind; [apply spec_choice; discriminate|]. intros category _.
  eapply spec_bind; [apply spec_lifecycle_shape|]. intros [[c u] d] Hshape.
  eapply spec_bind; [apply spec_fake_next|]. intros name _.
  eapply spec_bind; [apply spec_uniform_price|].
  intros price _. apply spec_ret. exact Hshape.
Qed.

(** X3. In every user and product row the day of [updated_at] is not
    before the day of [created_at], a soft-deleted row is deleted at its
    [updated_at], and a row created on the day of the call has
    [updated_at] equal to [created_at] and is not deleted. *)
Theorem entity_lifecycle_shape
    num_users num_products wu wp users products wu' wp' :
  generate_users num_users wu = OK (users, wu') ->
  generate_products num_products wp = OK (products, wp') ->
  Forall (fun u => lifecycle_shape (clock_tape wu (clock_pos wu)) (user_lifecycle u)) users /\
  Forall (fun p => lifecycle_shape (clock_tape wp (clock_pos wp)) (product_lifecycle p))
         products.
Proof.
  intros Hu Hp. split.
  - unfold generate_users, bind at 1, datetime_now in Hu.
    pose proof (spec_for_range _ _ _ (Z.to_nat num_users)
                  (spec_user_body_shape (clock_tape wu (clock_pos wu)))) as Hs.
    specialize (Hs (mkWorld (rand_tape wu) (rand_pos wu) (clock_tape wu) (S (clock_pos wu))
                            (fake_tape wu) (fake_pos wu) (unique_seen wu))).
    rewrite Hu in Hs. exact (proj2 Hs).
  - unfold generate_products, bind at 1, datetime_now in Hp.
    pose proof (spec_for_range _ _ _ (Z.to_nat num_products)
                  (spec_product_body_shape (clock_tape wp (clock_pos wp)))) as Hs.
    specialize (Hs (mkWorld (rand_tape wp) (rand_pos wp) (clock_tape wp) (S (clock_pos wp))
                            (fake_tape wp) (fake_pos wp) (unique_seen wp))).
    rewrite Hp in Hs. exact (proj2 Hs).
Qed.

Lemma entity_lifecycle_shape_witness :
  exists users products,
    value (generate_users 2 two_users_world) = OK users /\
    value (generate_products 1 same_day_product_world) = OK products /\
    Forall (fun u => lifecycle_shape noon_100 (user_lifecycle u)) users /\
    Forall (fun p => lifecycle_shape noon_100 (product_lifecycle p)) products.
Proof.
  destruct (generate_users 2 two_users_world) as [[users wu']|e] eqn:Hu;
    [|vm_compute in Hu; discriminate].
  destruct (generate_products 1 same_day_product_world) as [[products wp']|e] eqn:Hp;
    [|vm_compute in Hp; discriminate].
  exists users, products. split; [reflexivity|]. split; [reflexivity|].
  exact (entity_lifecycle_shape 2 1 two_users_world same_day_product_world
           users products wu' wp' Hu Hp).
Defined.

(** ** Users: email addresses and postal addresses *)

Lemma keeps_seen_ret {A} (a : A) : keeps_seen (ret a).
Proof. intros w b w' H. inv_ret H. reflexivity. Qed.

Lemma keeps_seen_raise {A} e : keeps_seen (@raise A e).
Proof. intros w b w' H. discriminate. Qed.

Lemma keeps_seen_lift {A} (r : Result A) : keeps_seen (lift r).
Proof. intros w b w' H. apply lift_OK in H. destruct H as [_ ->]. reflexivity. Qed.

Lemma keeps_seen_bind {A B} (c : M A) (k : A -> M B) :
  keeps_seen c -> (forall a, keeps_seen (k a)) -> keeps_seen (bind c k).
Proof.
  intros Hc Hk w b w' H. inv_bind H.
  rewrite (Hk _ _ _ _ H). eapply Hc. eassumption.
Qed.

Lemma keeps_seen_next_raw : keeps_seen next_raw.
Proof. intros w a w' H. inversion H. reflexivity. Qed.

Lemma keeps_seen_fake_next : keeps_seen fake_next.
Proof. intros w a w' H. inversion H. reflexivity. Qed.

Lemma keeps_seen_randint a b : keeps_seen (randint a b).
Proof.
  unfold randint. destruct (b <? a); [apply keeps_seen_raise|].
  apply keeps_seen_bind; [apply keeps_seen_next_raw|intros; apply keeps_seen_ret].
Qed.

Lemma keeps_seen_randomize_time t : keeps_seen (randomize_time t).
Proof.
  unfold randomize_time.
  repeat (apply keeps_seen_bind; [apply keeps_seen_randint|intros]).
  apply keeps_seen_lift.
Qed.

Lemma keeps_seen_lifecycle base_time num den : keeps_seen (lifecycle base_time num den).
Proof.
  unfold lifecycle.
  apply keeps_seen_bind; [apply keeps_seen_randint|]. intros d.
  apply keeps_seen_bind; [apply keeps_seen_randomize_time|]. intros c.
  destruct (d =? 90); [apply keeps_seen_ret|].
  apply keeps_seen_bind; [apply keeps_seen_randint|]. intros r.
  apply keeps_seen_bind; [apply keeps_seen_randomize_time|]. intros u.
  apply keeps_seen_bind; [|intros; apply keeps_seen_ret].
  unfold random_below.
  apply keeps_seen_bind; [apply keeps_seen_next_raw|intros; apply keeps_seen_ret].
Qed.

(** [fake.unique.email()] returns an address it has not handed out
    before, and remembers it. *)
Lemma fake_unique_email_OK w v w' :
  fake_unique_email w = OK (v, w') ->
  ~ In v (unique_seen w) /\ unique_seen w' = v :: unique_seen w.
Proof.
  unfold fake_unique_email. generalize 1000%nat. intros fuel. revert w.
  induction fuel as [|fuel IH]; simpl; intros w H; [discriminate|].
  inv_bind H. inv_bind H.
  assert (Hw0 : unique_seen w0 = unique_seen w) by (inversion Hrun; reflexivity).
  unfold seen in Hrun0. inversion Hrun0; subst v1 w1; clear Hrun0.
  destruct (bool_decide (v0 ∈ unique_seen w0)) eqn:Hdup.
  - apply IH in H. rewrite Hw0 in H. exact H.
  - apply bool_decide_eq_false_1 in Hdup.
    inv_bind H. inv_ret H. inversion Hrun0; subst; clear Hrun0. simpl.
    rewrite <- Hw0. split; [|reflexivity].
    intros Hin. apply Hdup. apply list_elem_of_In. exact Hin.
Qed.

Lemma replace_newlines_single_line s : single_line (replace_newlines s).
Proof.
  induction s as [|c s IH]; simpl; [exact I|].
  destruct (Ascii.eqb c "010"%char) eqn:E; simpl.
  - repeat split; [discriminate|discriminate|exact IH].
  - apply Ascii.eqb_neq in E. auto.
Qed.

Lemma user_body_OK base_time w u w' :
  user_body base_time w = OK (u, w') ->
  ~ In (u_email u) (unique_seen w) /\
  unique_seen w' = u_email u :: unique_seen w /\
  single_line (u_address u).
Proof.
  unfold user_body. intros H.
  inv_bind H. destruct v as [[c up] d].
  apply keeps_seen_lifecycle in Hrun.
  inv_bind H. apply keeps_seen_fake_next in Hrun0.
  inv_bind H. apply fake_unique_email_OK in Hrun1.
  inv_bind H. apply keeps_seen_fake_next in Hrun2.
  inv_ret H. simpl.
  rewrite Hrun2. destruct Hrun1 as [Hnew ->]. rewrite Hrun0, Hrun in *.
  split; [exact Hnew|]. split; [reflexivity|apply replace_newlines_single_line].
Qed.

Lemma for_range_user_body base_time : forall n w rows w',
  for_range n (user_body base_time) w = OK (rows, w') ->
  List.NoDup (map u_email rows) /\
  (forall e, In e (map u_email rows) -> ~ In e (unique_seen w)) /\
  (forall e, In e (unique_seen w) -> In e (unique_seen w')) /\
  (forall e, In e (map u_email rows) -> In e (unique_seen w')) /\
  Forall (fun u => single_line (u_address u)) rows.
Proof.
  induction n as [|n IH]; simpl; intros w rows w' H.
  - inv_ret H. simpl. repeat split; try constructor; tauto.
  - inv_bind H. inv_bind H. inv_ret H.
    apply user_body_OK in Hrun. destruct Hrun as (Hnew & Hseen & Hline).
    apply IH in Hrun0. destruct Hrun0 as (Hnd & Hfresh & Hkept & Hin & Hlines).
    simpl. split; [|split; [|split; [|split]]].
    + constructor; [|exact Hnd].
      intros Hdup. apply (Hfresh _ Hdup). rewrite Hseen. left. reflexivity.
    + intros e [<-|He]; [exact Hnew|].
      intros Hold. apply (Hfresh _ He). rewrite Hseen. right. exact Hold.
    + intros e He. apply Hkept. rewrite Hseen. right. exact He.
    + intros e [<-|He]; [apply Hkept; rewrite Hseen; left; reflexivity|auto].
    + constructor; assumption.
Qed.

(** X4. The email addresses of the users of one call of
    [generate_users] are pairwise distinct, and none of them was handed
    out by [fake.unique] before the call; all of them are remembered
    after it, so that a later call cannot produce them again. *)
Theorem generated_emails_unique num_users w rows w' :
  generate_users num_users w = OK (rows, w') ->
  List.NoDup (map u_email rows) /\
  (forall e, In e (map u_email rows) ->
             ~ In e (unique_seen w) /\ In e (unique_seen w')).
Proof.
  unfold generate_users. intros H. inv_bind H.
  inversion Hrun; subst v w0; clear Hrun.
  apply for_range_user_body in H. destruct H as (Hnd & Hfresh & _ & Hin & _).
  split; [exact Hnd|]. intros e He. split; [exact (Hfresh e He)|exact (Hin e He)].
Qed.

Lemma generated_emails_unique_witness :
  exists rows,
    value (generate_users 2 two_users_world) = OK rows /\
    map u_email rows = ["ann@example.org"; "bob@example.org"] /\
    List.NoDup (map u_email rows).
Proof.
  destruct (generate_users 2 two_users_world) as [[rows w']|e] eqn:Hrun;
    [|vm_compute in Hrun; discriminate].
  exists rows. split; [reflexivity|]. split.
  - vm_compute in Hrun. inversion Hrun. reflexivity.
  - exact (proj1 (generated_emails_unique 2 two_users_world rows w' Hrun)).
Defined.

(** X5. The address of every generated user is a single line: the line
    breaks of Faker's address are replaced. *)
Theorem generated_addresses_single_line num_users w rows w' :
  generate_users num_users w = OK (rows, w') ->
  Forall (fun u => single_line (u_address u)) rows.
Proof.
  unfold generate_users. intros H. inv_bind H.
  apply for_range_user_body in H. tauto.
Qed.

Lemma generated_addresses_single_line_witness :
  exists rows,
    value (generate_users 2 two_users_world) = OK rows /\
    map u_address rows = ["1 Main St, Springfield"; "2 Main St"] /\
    Forall (fun u => single_line (u_address u)) rows.
Proof.
  destruct (generate_users 2 two_users_world) as [[rows w']|e] eqn:Hrun;
    [|vm_compute in Hrun; discriminate].
  exists rows. split; [reflexivity|]. split.
  - vm_compute in Hrun. inversion Hrun. reflexivity.
  - exact (generated_addresses_single_line 2 two_users_world rows w' Hrun).
Defined.

(** ** Products *)

(** X6. Every generated product has one of the eight categories. *)
Theorem generated_products_category num_products w rows w' :
  generate_products num_products w = OK (rows, w') ->
  Forall (fun p => In (p_category p) categories) rows.
Proof.
  intros Hrun. pose proof (generate_products_spec num_products w) as Hs.
  rewrite Hrun in Hs. destruct Hs as [_ Hall].
  eapply List.Forall_impl; [|exact Hall]. cbv beta. tauto.
Qed.

Lemma generated_products_category_witness :
  exists rows,
    value (generate_products 1 same_day_product_world) = OK rows /\
    Forall (fun p => In (p_category p) categories) rows.
Proof.
  destruct (generate_products 1 same_day_product_world) as [[rows w']|e] eqn:Hrun;
    [|vm_compute in Hrun; discriminate].
  exists rows. split; [reflexivity|].
  exact (generated_products_category 1 same_day_product_world rows w' Hrun).
Defined.

(** ** Order items: the rows of one order *)

Lemma keys_dict_set_NoDup k v d :
  List.NoDup (keys d) -> List.NoDup (keys (dict_set k v d)).
Proof.
  unfold keys. induction d as [|[k' v'] d IH]; simpl; intros Hnd.
  - constructor; [tauto|constructor].
  - inversion Hnd as [|? ? Hnot Hnd']; subst.
    destruct (k' =? k) eqn:Ek; simpl.
    + constructor; assumption.
    + constructor; [|auto].
      intros Hin. apply (keys_dict_set k' k v d) in Hin.
      apply Z.eqb_neq in Ek. destruct Hin as [Hin|Hin]; [congruence|exact (Hnot Hin)].
Qed.

Lemma keys_to_dict_NoDup items : List.NoDup (keys (to_dict items)).
Proof.
  unfold to_dict.
  assert (H : forall acc, List.NoDup (keys acc) ->
            List.NoDup (keys (fold_left (fun d kv => dict_set (fst kv) (snd kv) d) items acc))).
  { induction items as [|kv items IH]; simpl; intros acc Hacc; [exact Hacc|].
    apply IH. apply keys_dict_set_NoDup. exact Hacc. }
  apply H. constructor.
Qed.

Lemma available_NoDup d order_created : forall pids l,
  available d order_created pids = OK l -> List.NoDup pids -> List.NoDup l.
Proof.
  induction pids as [|p pids IH]; simpl; intros l H Hnd.
  - inversion H. constructor.
  - destruct (dict_get p d) as [t|e]; [|discriminate].
    destruct (available d order_created pids) as [l0|e] eqn:Hrest; [|discriminate].
    inversion H; subst; clear H. inversion Hnd as [|? ? Hnot Hnd']; subst.
    specialize (IH l0 eq_refl Hnd').
    destruct (t <? order_created); [|exact IH].
    constructor; [|exact IH].
    intros Hin. apply Hnot.
    exact (proj1 (available_OK _ _ _ _ Hrest _ Hin)).
Qed.

Lemma available_total d order_created : forall pids,
  (forall pid, In pid pids -> In pid (keys d)) ->
  exists l, available d order_created pids = OK l.
Proof.
  induction pids as [|p pids IH]; simpl; intros Hkeys; [eauto|].
  destruct (dict_get_In p d (Hkeys p (or_introl eq_refl))) as (t & ->).
  destruct IH as (l & ->); [auto|]. eauto.
Qed.

(** Exchanging a cell of the pool with the last one and dropping the
    last cell removes that cell and nothing else. *)
Lemma pool_step_Permutation {A} (x : A) : forall (pool : list A) (j : nat),
  (j < length pool)%nat ->
  Permutation pool (nth j pool x :: removelast (<[j := List.last pool x]> pool)).
Proof.
  induction pool as [|a pool IH]; intros j Hj; [simpl in Hj; lia|].
  destruct pool as [|b pool].
  - destruct j; [|simpl in Hj; lia]. reflexivity.
  - destruct j as [|j].
    + change (nth 0 (a :: b :: pool) x) with a.
      change (<[0%nat := List.last (a :: b :: pool) x]> (a :: b :: pool))
        with (List.last (b :: pool) x :: b :: pool).
      change (removelast (List.last (b :: pool) x :: b :: pool))
        with (List.last (b :: pool) x :: removelast (b :: pool)).
      apply perm_skip.
      rewrite (app_removelast_last x (l := b :: pool)) at 1 by discriminate.
      symmetry. apply Permutation_cons_append.
    + change (nth (S j) (a :: b :: pool) x) with (nth j (b :: pool) x).
      change (<[S j := List.last (a :: b :: pool) x]> (a :: b :: pool))
        with (a :: <[j := List.last (b :: pool) x]> (b :: pool)).
      assert (Hne : <[j := List.last (b :: pool) x]> (b :: pool) <> []).
      { intros Heq. apply (f_equal (@length A)) in Heq.
        rewrite length_insert in Heq. discriminate. }
      destruct (<[j := List.last (b :: pool) x]> (b :: pool)) as [|c rest] eqn:Hins;
        [congruence|].
      change (removelast (a :: c :: rest)) with (a :: removelast (c :: rest)).
      rewrite <- Hins.
      specialize (IH j ltac:(simpl in *; lia)).
      rewrite (perm_swap a (nth j (b :: pool) x)).
      apply perm_skip. exact IH.
Qed.

Lemma sample_pool_shape {A} : forall k (pool : list A) w l w',
  sample_pool k pool w = OK (l, w') ->
  length l = k /\ (List.NoDup pool -> List.NoDup l).
Proof.
  induction k as [|k IH]; simpl; intros pool w l w' H.
  - inv_ret H. split; [reflexivity|constructor].
  - destruct pool as [|a pool]; [discriminate|].
    inv_bind H. inv_bind H. inv_ret H.
    set (j := Z.to_nat (v mod Z.of_nat (length (a :: pool)))) in *.
    assert (Hj : (j < length (a :: pool))%nat).
    { assert (0 <= v mod Z.of_nat (length (a :: pool)) < Z.of_nat (length (a :: pool)))
        by (apply Z.mod_pos_bound; simpl length; lia).
      unfold j. lia. }
    pose proof (pool_step_Permutation a (a :: pool) j Hj) as Hperm.
    pose proof (sample_pool_OK _ _ _ _ _ Hrun0) as Hsub.
    destruct (IH _ _ _ _ Hrun0) as [Hlen Hnd].
    split; [simpl; congruence|].
    intros Hpool. apply (Permutation_NoDup Hperm) in Hpool.
    inversion Hpool as [|? ? Hnot Hrest]; subst.
    constructor; [|auto].
    intros Hin. apply Hnot. apply Hsub. exact Hin.
Qed.

Lemma sample_pool_total {A} E : forall k (pool : list A),
  (k <= length pool)%nat -> spec (sample_pool k pool) (fun _ => True) E.
Proof.
  induction k as [|k IH]; simpl; intros pool Hk; [apply spec_ret; exact I|].
  destruct pool as [|a pool]; [simpl in Hk; lia|].
  eapply spec_bind; [apply spec_next_raw|]. intros r _. cbv zeta.
  eapply spec_bind; [|intros; apply spec_ret; exact I].
  apply IH.
  assert (Hlen : length (removelast (<[Z.to_nat (r mod Z.of_nat (length (a :: pool))) :=
                                       List.last (a :: pool) a]> (a :: pool))) = length pool).
  { rewrite removelast_firstn_len, length_firstn, length_insert. simpl. lia. }
  rewrite Hlen. simpl in Hk. lia.
Qed.

Lemma Forall2_map_eq {A B} (f : B -> A) l ys :
  Forall2 (fun a y => f y = a) l ys -> map f ys = l.
Proof. induction 1; simpl; congruence. Qed.

Lemma order_items_body_chunk products_df order w chunk w' :
  order_items_body (product_dict products_df) (keys (product_dict products_df)) order w
    = OK (chunk, w') ->
  order_chunk products_df order chunk.
Proof.
  intros Hrun. pose proof (order_items_body_OK _ _ _ _ _ _ Hrun) as Hrows.
  unfold order_items_body in Hrun. inv_bind Hrun.
  apply lift_OK in Hrun0. destruct Hrun0 as [Hav ->].
  destruct v as [|pid0 rest].
  - inv_ret Hrun. constructor; simpl; try constructor; try lia; tauto.
  - inv_bind Hrun. inv_bind Hrun.
    apply randint_OK in Hrun0.
    unfold sample in Hrun1.
    destruct ((v <? 0) || (Z.of_nat (length (pid0 :: rest)) <? v)); [discriminate|].
    apply sample_pool_shape in Hrun1. destruct Hrun1 as [Hlen Hnd].
    assert (Hids : map oi_product_id chunk = v0).
    { apply Forall2_map_eq.
      eapply for_each_OK; [|exact Hrun]. cbv beta.
      intros pid w2 it w3 Hb. inv_bind Hb. inv_ret Hb. reflexivity. }
    assert (Hsize : length chunk = Z.to_nat v).
    { rewrite <- Hlen, <- Hids, length_map. reflexivity. }
    constructor.
    + lia.
    + rewrite Hids. apply Hnd.
      eapply available_NoDup; [exact Hav|]. apply keys_to_dict_NoDup.
    + eapply List.Forall_impl; [|exact Hrows]. cbv beta. tauto.
    + split.
      * intros ->. simpl in Hsize. lia.
      * rewrite Hav. discriminate.
Qed.

(** X7. The order items come order by order: each order contributes at
    most five rows, for pairwise distinct products, each with the key of
    that order and a quantity from 1 to 10, and it contributes no row
    exactly when no product is available for it. *)
Theorem order_items_per_order orders_df products_df w items w' :
  generate_order_items orders_df products_df w = OK (items, w') ->
  exists chunks,
    items = concat chunks /\
    Forall2 (order_chunk products_df) orders_df chunks.
Proof.
  intros H. rewrite (generate_order_items_with_rows _ _ _
                       (generate_order_items_has_rows _ _ _ _ _ H)) in H.
  cbv zeta in H. inv_bind H. inv_ret H.
  exists v. split; [reflexivity|].
  eapply for_each_OK; [|exact Hrun]. cbv beta.
  intros order w1 chunk w2 Hb. exact (order_items_body_chunk _ _ _ _ _ Hb).
Qed.

Lemma order_items_per_order_witness :
  exists items chunks,
    value (generate_order_items three_orders three_products items_world) = OK items /\
    items = concat chunks /\
    Forall2 (order_chunk three_products) three_orders chunks.
Proof.
  destruct (generate_order_items three_orders three_products items_world)
    as [[items w']|e] eqn:Hrun; [|vm_compute in Hrun; discriminate].
  destruct (order_items_per_order three_orders three_products items_world items w' Hrun)
    as (chunks & Hcat & Hall).
  exists items, chunks. split; [reflexivity|]. split; assumption.
Defined.

(** X8. Given a products frame that has rows (and so its columns),
    [generate_order_items] never raises: every key it looks up is in the
    dictionary, the number of rows of an order is drawn from a range
    that is not empty, and the sample is never larger than the list of
    available products. *)
Theorem generate_order_items_never_raises orders_df products_df w :
  products_df <> [] ->
  exists items w', generate_order_items orders_df products_df w = OK (items, w').
Proof.
  intros Hrows.
  assert (Hs : spec (generate_order_items orders_df products_df) (fun _ => True) never).
  { intros w0. rewrite (generate_order_items_with_rows _ _ _ Hrows). cbv zeta.
    revert w0. change (spec (bind (for_each orders_df
        (order_items_body
           (to_dict (map (fun p => (id p, p_created_at (row p))) products_df))
           (keys (to_dict (map (fun p => (id p, p_created_at (row p))) products_df)))))
        (fun l => ret (concat l))) (fun _ => True) never).
    eapply spec_bind with (Q := fun _ => True); [|intros; apply spec_ret; exact I].
    induction orders_df as [|order orders_df IH]; simpl; [apply spec_ret; exact I|].
    eapply spec_bind with (Q := fun _ => True);
      [|intros; eapply spec_bind; [exact IH|intros; apply spec_ret; exact I]].
    unfold order_items_body.
    set (d := to_dict (map (fun p => (id p, p_created_at (row p))) products_df)).
    destruct (available_total d (o_created_at (row order)) (keys d)) as (l & Hl); [auto|].
    rewrite Hl. eapply spec_bind with (Q := fun a => a = l);
      [intros w0; reflexivity|]. intros ? ->.
    destruct l as [|pid0 rest]; [apply spec_ret; exact I|].
    eapply spec_bind; [apply spec_randint; simpl length; lia|]. intros k Hk. cbv beta in Hk.
    eapply spec_bind with (Q := fun _ => True).
    - unfold sample.
      destruct ((k <? 0) || (Z.of_nat (length (pid0 :: rest)) <? k)) eqn:Hbad.
      + apply orb_prop in Hbad. destruct Hbad as [Hbad|Hbad];
          [apply Z.ltb_lt in Hbad|apply Z.ltb_lt in Hbad]; lia.
      + apply sample_pool_total. lia.
    - intros selected _. induction selected as [|pid selected IHs]; simpl;
        [apply spec_ret; exact I|].
      eapply spec_bind with (Q := fun _ => True);
        [|intros; eapply spec_bind; [exact IHs|intros; apply spec_ret; exact I]].
      eapply spec_bind; [apply spec_randint; lia|]. intros; apply spec_ret; exact I. }
  specialize (Hs w).
  destruct (generate_order_items orders_df products_df w) as [[items w']|e];
    [eauto|contradiction].
Qed.

Lemma generate_order_items_never_raises_witness :
  exists items w',
    generate_order_items three_orders three_products items_world = OK (items, w').
Proof.
  apply (generate_order_items_never_raises three_orders three_products items_world).
  discriminate.
Defined.

(** ** Orders: when the generation succeeds *)

Lemma spec_in_ret I {A} (a : A) (Q : A -> Prop) : Q a -> spec_in I (ret a) Q.
Proof. intros H w Hw. split; assumption. Qed.

Lemma spec_in_bind I {A B} (c : M A) (k : A -> M B) (Q : A -> Prop) (R : B -> Prop) :
  spec_in I c Q -> (forall a, Q a -> spec_in I (k a) R) -> spec_in I (bind c k) R.
Proof.
  intros Hc Hk w Hw. unfold bind. specialize (Hc w Hw).
  destruct (c w) as [[a w1]|e]; [|exact Hc].
  destruct Hc as [Ha Hw1]. exact (Hk a Ha w1 Hw1).
Qed.

Lemma spec_in_clock readings {A} (c : M A) (Q : A -> Prop) :
  spec c Q never -> keeps_clock c -> spec_in (on_clock readings) c Q.
Proof.
  intros Hs Hk w Hw. specialize (Hs w). specialize (Hk w).
  destruct (c w) as [[a w1]|e]; [|exact Hs].
  split; [exact Hs|]. unfold on_clock in *. rewrite (Hk a w1 eq_refl). exact Hw.
Qed.

Lemma spec_in_datetime_now readings :
  spec_in (on_clock readings) datetime_now (fun now => exists i, now = readings i).
Proof.
  intros w Hw. unfold datetime_now, on_clock in *. simpl.
  split; [exists (clock_pos w); rewrite Hw; reflexivity|exact Hw].
Qed.

Lemma spec_in_for_range I {A} (body : M A) (Q : A -> Prop) n :
  spec_in I body Q ->
  spec_in I (for_range n body) (fun l => length l = n /\ Forall Q l).
Proof.
  intros Hb. induction n as [|n IH]; simpl.
  - apply spec_in_ret. auto.
  - eapply spec_in_bind; [exact Hb|]. intros x Hx.
    eapply spec_in_bind; [exact IH|]. intros xs [Hlen Hxs].
    apply spec_in_ret. simpl. auto.
Qed.

Lemma spec_ensure_after created_at user_created E :
  spec (ensure_after created_at user_created) (fun _ => True) E.
Proof.
  unfold ensure_after. destruct (created_at <=? user_created).
  - eapply spec_bind; [apply spec_randint; lia|]. intros; apply spec_ret; exact I.
  - apply spec_ret. exact I.
Qed.

(** The day offset of a parent old enough for the status is never past
    the end of the window of that status. *)
Lemma parent_offset_in_window now0 now user_created age :
  now <= now0 + DAY ->
  user_created < now - age * DAY ->
  days_between user_created (now0 - 90 * DAY) <= 90 - age.
Proof.
  intros Hnow Hold. unfold days_between.
  assert ((user_created - (now0 - 90 * DAY)) / DAY < 91 - age); [|lia].
  apply Z.div_lt_upper_bound; [apply DAY_pos|]. lia.
Qed.

Section Succeeds.

Variable readings : nat -> Z.
Variable now0 : Z.
Variable users_df : list (WithId UserRow).
Variable old_user : WithId UserRow.

Hypothesis clock_bounded : forall i, readings i <= now0 + DAY.
Hypothesis old_user_in : In old_user users_df.
Hypothesis old_user_old :
  forall i, u_created_at (row old_user) < readings i - 15 * DAY.

Lemma place_order_succeeds age lo hi :
  0 <= age <= 15 -> lo <= hi -> 90 - age <= hi ->
  spec_in (on_clock readings)
          (place_order users_df (now0 - 90 * DAY) age lo hi) (fun _ => True).
Proof.
  intros Hage Hlohi Hhi. unfold place_order.
  eapply spec_in_bind; [apply spec_in_datetime_now|]. intros now [i ->]. cbv zeta.
  set (filtered := older_than (readings i) age users_df).
  set (d := to_dict (map (fun u => (id u, u_created_at (row u))) filtered)).
  assert (Hne : keys d <> []).
  { assert (Hin : In (id old_user) (keys d)).
    { apply to_dict_keys. rewrite map_map. simpl.
      apply (in_map id). apply older_than_In. split; [exact old_user_in|].
      specialize (old_user_old i). unfold DAY, HOUR, SECOND in *. lia. }
    intros Heq. rewrite Heq in Hin. destruct Hin. }
  eapply spec_in_bind;
    [apply spec_in_clock; [apply spec_choice; exact Hne|apply keeps_clock_choice]|].
  intros user_id Huid. cbv beta in Huid.
  destruct (dict_get_In _ _ Huid) as (user_created & Hget). rewrite Hget.
  eapply spec_in_bind with (Q := fun a => a = user_created);
    [intros w Hw; simpl; auto|]. intros ? ->.
  assert (Hold : user_created < readings i - age * DAY).
  { apply to_dict_get, in_map_iff in Hget. destruct Hget as (u & Hu & Hin).
    inversion Hu; subst. apply older_than_In in Hin. tauto. }
  pose proof (parent_offset_in_window now0 (readings i) user_created age
                (clock_bounded i) Hold) as Hoff.
  eapply spec_in_bind;
    [apply spec_in_clock; [apply spec_randint; lia|apply keeps_clock_randint]|].
  intros day _.
  eapply spec_in_bind;
    [apply spec_in_clock; [apply spec_randomize_time|apply keeps_clock_randomize_time]|].
  intros created_at _.
  eapply spec_in_bind;
    [apply spec_in_clock; [apply spec_ensure_after|apply keeps_clock_ensure_after]|].
  intros created_at' _. apply spec_in_ret. exact I.
Qed.

Lemma order_body_succeeds :
  spec_in (on_clock readings) (order_body users_df (now0 - 90 * DAY)) (fun _ => True).
Proof.
  unfold order_body.
  eapply spec_in_bind;
    [apply spec_in_clock; [apply spec_choice; discriminate|apply keeps_clock_choice]|].
  intros status _.
  destruct (String.eqb status "pending"); [|destruct (String.eqb status "shipped")].
  - eapply spec_in_bind; [apply place_order_succeeds; lia|].
    intros [user_id created_at] _. apply spec_in_ret. exact I.
  - eapply spec_in_bind; [apply place_order_succeeds; lia|].
    intros [user_id created_at] _.
    eapply spec_in_bind;
      [apply spec_in_clock; [apply spec_randint; lia|apply keeps_clock_randint]|].
    intros k _.
    eapply spec_in_bind;
      [apply spec_in_clock; [apply spec_randomize_time|apply keeps_clock_randomize_time]|].
    intros updated_at _. apply spec_in_ret. exact I.
  - eapply spec_in_bind; [apply place_order_succeeds; lia|].
    intros [user_id created_at] _.
    eapply spec_in_bind;
      [apply spec_in_clock; [apply spec_randint; lia|apply keeps_clock_randint]|].
    intros k _.
    eapply spec_in_bind;
      [apply spec_in_clock; [apply spec_randomize_time|apply keeps_clock_randomize_time]|].
    intros updated_at _. apply spec_in_ret. exact I.
Qed.

End Succeeds.

(** X9. [generate_orders] returns, with one row per requested order,
    whenever some user is more than 15 days old at every reading of the
    clock and the clock never reads more than a day past its reading at
    the start of the call: the age a status demands of a parent keeps the
    parent's day offset inside the window of that status, so no range
    drawn from is empty. *)
Theorem generate_orders_succeeds users_df num_orders w :
  (forall i, clock_tape w i <= clock_tape w (clock_pos w) + DAY) ->
  (exists u, In u users_df /\
             forall i, u_created_at (row u) < clock_tape w i - 15 * DAY) ->
  exists rows w',
    generate_orders users_df num_orders w = OK (rows, w') /\
    length rows = Z.to_nat num_orders.
Proof.
  intros Hclock (u & Hu & Hold).
  pose proof (spec_in_for_range (on_clock (clock_tape w)) _ _ (Z.to_nat num_orders)
                (order_body_succeeds (clock_tape w) (clock_tape w (clock_pos w))
                   users_df u Hclock Hu Hold)) as Hs.
  unfold generate_orders, bind at 1, datetime_now.
  match goal with
  | |- exists rows w', ?run ?w1 = _ /\ _ => specialize (Hs w1 eq_refl); destruct (run w1) as [[rows w']|e]
  end; [|contradiction].
  exists rows, w'. split; [reflexivity|tauto].
Qed.

Lemma generate_orders_succeeds_witness :
  exists rows w',
    generate_orders two_users 2 steady_world = OK (rows, w') /\
    length rows = 2%nat.
Proof.
  apply (generate_orders_succeeds two_users 2 steady_world).
  - intros i. simpl. unfold DAY, HOUR, SECOND. lia.
  - exists (mkWithId 1 (mkUser "Ann" "ann@example.org" "1 Main St"
                              (20 * DAY) (20 * DAY) None)).
    split; [left; reflexivity|].
    intros i. simpl. unfold noon_100, DAY, HOUR, SECOND. lia.
Defined.

(** ** Orders: parents and timestamps *)

Lemma reads_clock_ret {A} (a : A) : reads_clock 0 (ret a).
Proof. intros w b w' H. inversion H. subst. lia. Qed.

Lemma reads_clock_raise {A} n e : reads_clock n (@raise A e).
Proof. intros w a w' H. discriminate H. Qed.

Lemma reads_clock_lift {A} (r : Result A) : reads_clock 0 (lift r).
Proof. intros w a w' H. unfold lift in H. destruct r; inversion H. subst. lia. Qed.

Lemma reads_clock_next_raw : reads_clock 0 next_raw.
Proof. intros w a w' H. inversion H. simpl. lia. Qed.

Lemma reads_clock_datetime_now : reads_clock 1 datetime_now.
Proof. intros w a w' H. inversion H. simpl. lia. Qed.

Lemma reads_clock_bind {A B} n m (c : M A) (k : A -> M B) :
  reads_clock n c -> (forall a, reads_clock m (k a)) -> reads_clock (n + m) (bind c k).
Proof.
  intros Hc Hk w b w2 H. apply bind_OK in H. destruct H as (a & w1 & H1 & H2).
  apply Hc in H1. apply Hk in H2. lia.
Qed.

(** A call that does not look at the clock, followed by the rest. *)
Lemma reads_clock_then {A B} m (c : M A) (k : A -> M B) :
  reads_clock 0 c -> (forall a, reads_clock m (k a)) -> reads_clock m (bind c k).
Proof. intros Hc Hk. exact (reads_clock_bind 0 m c k Hc Hk). Qed.

Lemma reads_clock_randint a b : reads_clock 0 (randint a b).
Proof.
  unfold randint. destruct (b <? a); [apply reads_clock_raise|].
  apply reads_clock_then; [apply reads_clock_next_raw|]. intros r. apply reads_clock_ret.
Qed.

Lemma reads_clock_choice {A} (l : list A) : reads_clock 0 (choice l).
Proof.
  unfold choice. destruct l; [apply reads_clock_raise|].
  apply reads_clock_then; [apply reads_clock_next_raw|]. intros r. apply reads_clock_ret.
Qed.

Lemma reads_clock_randomize_time t : reads_clock 0 (randomize_time t).
Proof.
  unfold randomize_time.
  apply reads_clock_then; [apply reads_clock_randint|]. intros h.
  apply reads_clock_then; [apply reads_clock_randint|]. intros m.
  apply reads_clock_then; [apply reads_clock_randint|]. intros s.
  apply reads_clock_lift.
Qed.

Lemma reads_clock_ensure_after c u : reads_clock 0 (ensure_after c u).
Proof.
  unfold ensure_after. destruct (c <=? u); [|apply reads_clock_ret].
  apply reads_clock_then; [apply reads_clock_randint|]. intros k. apply reads_clock_ret.
Qed.

(** [place_order] takes one reading: the [pd.Timestamp.now] of the
    filter on the users. *)
Lemma reads_clock_place_order users_df base_time age lo hi :
  reads_clock 1 (place_order users_df base_time age lo hi).
Proof.
  unfold place_order.
  apply (reads_clock_bind 1 0); [apply reads_clock_datetime_now|]. intros now.
  apply reads_clock_then; [apply reads_clock_choice|]. intros user_id.
  apply reads_clock_then; [apply reads_clock_lift|]. intros user_created.
  apply reads_clock_then; [apply reads_clock_randint|]. intros d.
  apply reads_clock_then; [apply reads_clock_randomize_time|]. intros c.
  apply reads_clock_then; [apply reads_clock_ensure_after|]. intros c'.
  apply reads_clock_ret.
Qed.

Lemma reads_clock_order_body users_df base_time :
  reads_clock 1 (order_body users_df base_time).
Proof.
  unfold order_body.
  apply reads_clock_then; [apply reads_clock_choice|]. intros status.
  destruct (String.eqb status "pending"); [|destruct (String.eqb status "shipped")];
    (apply (reads_clock_bind 1 0); [apply reads_clock_place_order|];
     intros [user_id created_at]).
  - apply reads_clock_ret.
  - apply reads_clock_then; [apply reads_clock_randint|]. intros k.
    apply reads_clock_then; [apply reads_clock_randomize_time|]. intros u.
    apply reads_clock_ret.
  - apply reads_clock_then; [apply reads_clock_randint|]. intros k.
    apply reads_clock_then; [apply reads_clock_randomize_time|]. intros u.
    apply reads_clock_ret.
Qed.

(** The order at position [j] of the loop is drawn at the reading [j]
    after the one the loop starts at. *)
Lemma orders_loop_parent users_df base_time n : forall w rows w',
  for_range n (order_body users_df base_time) w = OK (rows, w') ->
  forall j o, nth_error rows j = Some o ->
    exists u,
      In u (eligible_parents (clock_tape w (clock_pos w + j)%nat) (o_status o) users_df) /\
      id u = o_user_id o.
Proof.
  induction n as [|n IH]; simpl; intros w rows w' H j o Hj.
  - inversion H; subst. destruct j; discriminate Hj.
  - apply bind_OK in H. destruct H as (x & w1 & Hbody & H).
    apply bind_OK in H. destruct H as (xs & w2 & Hrest & H).
    inversion H; subst rows w2; clear H.
    destruct j as [|j]; simpl in Hj.
    + inversion Hj; subst x; clear Hj. rewrite Nat.add_0_r.
      destruct (fact_parent _ _ _ (order_body_OK _ _ _ _ _ Hbody)) as (u & Hu & Hid & _).
      exists u. split; assumption.
    + destruct (IH _ _ _ Hrest j o Hj) as (u & Hu & Hid).
      rewrite (keeps_clock_order_body _ _ _ _ _ Hbody) in Hu.
      rewrite (reads_clock_order_body _ _ _ _ _ Hbody) in Hu.
      replace (clock_pos w + 1 + j)%nat with (clock_pos w + S j)%nat in Hu by lia.
      exists u. split; assumption.
Qed.

(** X10. The parent of every generated order was old enough for the
    status of the order at the clock reading taken for that order.
    [generate_orders] reads the clock once on entry and once for each
    order: the order at position [j] of the result is drawn at reading
    [1 + j] of the call, and its parent was created more than 1 day
    (pending), 5 days (shipped) or 15 days (completed, cancelled) before
    that reading. *)
Theorem orders_parent_old_enough users_df num_orders w rows w' :
  generate_orders users_df num_orders w = OK (rows, w') ->
  forall j o, nth_error rows j = Some o ->
    exists u,
      In u users_df /\ id u = o_user_id o /\
      u_created_at (row u) <
        clock_tape w (clock_pos w + 1 + j)%nat - min_parent_age (o_status o) * DAY.
Proof.
  unfold generate_orders. intros H j o Hj.
  apply bind_OK in H. destruct H as (now & w0 & Hnow & H).
  inversion Hnow; subst now w0; clear Hnow.
  destruct (orders_loop_parent _ _ _ _ _ _ H j o Hj) as (u & Hu & Hid).
  simpl in Hu. unfold eligible_parents in Hu. apply older_than_In in Hu.
  match type of Hu with
  | context [clock_tape w ?i] => replace i with (clock_pos w + 1 + j)%nat in Hu by lia
  end.
  exists u. tauto.
Qed.

(** In the run of [orders_world] the clock reads noon of day 100 on
    entry, a microsecond later for the pending order of Bob (created on
    day 90 at 23:00) and another microsecond later for the shipped order
    of Ann (created on day 20). *)
Lemma orders_parent_old_enough_witness :
  exists o0 o1 w',
    generate_orders two_users 2 orders_world = OK ([o0; o1], w') /\
    (exists u, In u two_users /\ id u = o_user_id o0 /\
               u_created_at (row u) < noon_100 + 1 - min_parent_age (o_status o0) * DAY) /\
    (exists u, In u two_users /\ id u = o_user_id o1 /\
               u_created_at (row u) < noon_100 + 2 - min_parent_age (o_status o1) * DAY).
Proof.
  destruct (generate_orders two_users 2 orders_world) as [[rows w']|e] eqn:Hrun;
    [|vm_compute in Hrun; discriminate].
  assert (Hrows : exists o0 o1, rows = [o0; o1]).
  { vm_compute in Hrun. injection Hrun as <- _. eexists _, _. reflexivity. }
  destruct Hrows as (o0 & o1 & ->).
  exists o0, o1, w'. split; [reflexivity|]. split.
  - exact (orders_parent_old_enough two_users 2 orders_world [o0; o1] w' Hrun 0%nat o0 eq_refl).
  - exact (orders_parent_old_enough two_users 2 orders_world [o0; o1] w' Hrun 1%nat o1 eq_refl).
Defined.

(** X11. No generated order is updated before it is created. *)
Theorem orders_updated_not_before_created users_df num_orders w rows w' :
  generate_orders users_df num_orders w = OK (rows, w') ->
  Forall (fun o => o_created_at o <= o_updated_at o) rows.
Proof. apply generate_orders_updated_after_created. Qed.

Lemma orders_updated_not_before_created_witness :
  exists rows,
    value (generate_orders two_users 2 orders_world) = OK rows /\
    Forall (fun o => o_created_at o <= o_updated_at o) rows.
Proof.
  destruct (generate_orders two_users 2 orders_world) as [[rows w']|e] eqn:Hrun;
    [|vm_compute in Hrun; discriminate].
  exists rows. split; [reflexivity|].
  exact (orders_updated_not_before_created two_users 2 orders_world rows w' Hrun).
Defined.

(** * Further properties of the schema provisioning *)

Lemma create_all_result defs : forall db db1,
  create_all defs db = OK db1 ->
  db1 = mkDatabase (schemas db) (insert_all defs (tables db)).
Proof.
  induction defs as [|d defs IH]; simpl; intros db db1 H.
  - inversion H. destruct db1; reflexivity.
  - unfold create_table in H.
    destruct (bool_decide (fst (td_name d) ∈ schemas db)); [|discriminate].
    destruct (tables db !! td_name d); [discriminate|].
    destruct (forallb _ (td_references d)); [|discriminate].
    simpl in H. apply IH in H. exact H.
Qed.

Lemma spared_drop_create ns defs db db1 :
  Forall (fun d => td_name d ∈ ns) defs ->
  create_all defs (drop_all ns db) = OK db1 ->
  schemas db1 = schemas db /\ spared ns db db1.
Proof.
  intros Hnames Hrun. apply create_all_result in Hrun. subst db1. simpl.
  split; [apply schemas_drop_all|].
  intros j Hj. simpl.
  rewrite lookup_insert_all_other.
  - rewrite lookup_drop_all, bool_decide_eq_false_2 by exact Hj.
    destruct (tables db !! j) as [t|]; simpl; [|exact I].
    exact (columns_drop_all_references ns t).
  - intros Hin. apply Hj. apply list_elem_of_In, in_map_iff in Hin.
    destruct Hin as (d & <- & Hd). rewrite List.Forall_forall in Hnames.
    apply Hnames. exact Hd.
Qed.

(** X12. A successful [create_source_tables] touches the four tables
    of the source schema and nothing else: the schemas of the database
    are the same, every other table keeps its columns and its rows and
    loses only its foreign keys into the dropped tables, and the result
    is committed. *)
Theorem create_source_tables_spares_others conn conn1 :
  create_source_tables conn = OK conn1 ->
  schemas (session conn1) = schemas (session conn) /\
  spared source_names (session conn) (session conn1) /\
  committed conn1 = session conn1.
Proof.
  rewrite create_source_tables_bulk. fold source_names. intros H.
  destruct (create_all source_tables (drop_all source_names (session conn)))
    as [db1|e] eqn:Hrun; [|discriminate].
  inversion H; subst conn1; clear H. simpl.
  destruct (spared_drop_create source_names source_tables (session conn) db1) as [Hs Hsp].
  - apply (bool_decide_unpack _). vm_compute. exact I.
  - exact Hrun.
  - auto.
Qed.

Lemma create_source_tables_spares_others_witness :
  exists conn1,
    create_source_tables used_connection = OK conn1 /\
    schemas (session conn1) = schemas (session used_connection) /\
    spared source_names (session used_connection) (session conn1) /\
    committed conn1 = session conn1.
Proof.
  destruct (create_source_tables used_connection) as [conn1|e] eqn:Hrun;
    [|vm_compute in Hrun; discriminate].
  exists conn1. split; [reflexivity|].
  exact (create_source_tables_spares_others used_connection conn1 Hrun).
Defined.

(** X13. A successful [create_warehouse_tables] adds the schemas
    [raw_ingest] and [raw_current], drops none, and touches only the
    eight staging tables: every other table keeps its columns and its
    rows; the result is committed. *)
Theorem create_warehouse_tables_spares_others conn conn1 :
  create_warehouse_tables conn = OK conn1 ->
  schemas (session conn1) = {["raw_current"]} ∪ ({["raw_ingest"]} ∪ schemas (session conn)) /\
  spared warehouse_names (session conn) (session conn1) /\
  committed conn1 = session conn1.
Proof.
  rewrite create_warehouse_tables_bulk. fold warehouse_names. intros H.
  set (db0 := create_schema_if_not_exists "raw_current"
                (create_schema_if_not_exists "raw_ingest" (session conn))) in *.
  destruct (create_all warehouse_tables (drop_all warehouse_names db0))
    as [db1|e] eqn:Hrun; [|discriminate].
  inversion H; subst conn1; clear H. simpl.
  destruct (spared_drop_create warehouse_names warehouse_tables db0 db1) as [Hs Hsp].
  - apply (bool_decide_unpack _). vm_compute. exact I.
  - exact Hrun.
  - split; [rewrite Hs; reflexivity|]. split; [exact Hsp|reflexivity].
Qed.

Lemma create_warehouse_tables_spares_others_witness :
  exists conn1,
    create_warehouse_tables used_connection = OK conn1 /\
    spared warehouse_names (session used_connection) (session conn1) /\
    committed conn1 = session conn1.
Proof.
  destruct (create_warehouse_tables used_connection) as [conn1|e] eqn:Hrun;
    [|vm_compute in Hrun; discriminate].
  exists conn1. split; [reflexivity|].
  exact (proj2 (create_warehouse_tables_spares_others used_connection conn1 Hrun)).
Defined.

(** * The generated data set *)

Lemma assign_ids_serial {A} (rows : list A) :
  map id (assign_ids (serial_ids (length rows)) rows) = serial_ids (length rows) /\
  map row (assign_ids (serial_ids (length rows)) rows) = rows.
Proof.
  unfold assign_ids, serial_ids. generalize 1%nat.
  induction rows as [|r rows IH]; intros start; simpl; [auto|].
  destruct (IH (S start)) as [Hid Hrow]. rewrite Hid, Hrow. auto.
Qed.

Lemma serial_ids_NoDup n : List.NoDup (serial_ids n).
Proof.
  unfold serial_ids. apply Finite.Injective_map_NoDup; [|apply seq_NoDup].
  intros a b Hab. apply Nat2Z.inj. exact Hab.
Qed.

Lemma assign_ids_NoDup {A} (rows : list A) :
  List.NoDup (map id (assign_ids (serial_ids (length rows)) rows)).
Proof. rewrite (proj1 (assign_ids_serial rows)). apply serial_ids_NoDup. Qed.

Lemma Forall_rows {A} (P : A -> Prop) (rows : list A) :
  Forall P rows ->
  Forall (fun x => P (row x)) (assign_ids (serial_ids (length rows)) rows).
Proof.
  intros H. rewrite <- (proj2 (assign_ids_serial rows)) in H.
  exact (proj1 (List.Forall_map row P _) H).
Qed.

(** The rows of a successful [generate_order_items]. *)
Lemma generate_order_items_rows orders_df products_df w items w' :
  generate_order_items orders_df products_df w = OK (items, w') ->
  Forall (fun it => exists order p,
            In order orders_df /\ id order = oi_order_id it /\
            In p products_df /\ id p = oi_product_id it /\
            p_created_at (row p) < o_created_at (row order)) items.
Proof.
  intros Hrun. rewrite (generate_order_items_with_rows _ _ _
                          (generate_order_items_has_rows _ _ _ _ _ Hrun)) in Hrun.
  cbv zeta in Hrun. inv_bind Hrun. inv_ret Hrun.
  eapply for_each_OK in Hrun0;
    [|intros order w1 its w2 Hb; exact (order_items_body_OK _ _ _ _ _ _ Hb)].
  apply List.Forall_forall. intros it Hit.
  apply in_concat in Hit. destruct Hit as (its & Hits & Hit).
  destruct (Forall2_In_right _ _ _ Hrun0 _ Hits) as (order & Horder & Hall).
  rewrite List.Forall_forall in Hall.
  destruct (Hall it Hit) as (Hid & _ & t & Hget & Hlt).
  apply to_dict_get, in_map_iff in Hget. destruct Hget as (p & Hp & Hin).
  inversion Hp; subst. exists order, p. auto.
Qed.

(** X14. The tables of a whole generation run, with the keys a fresh
    serial column hands out, are consistent: keys are unique within each
    table, every order references a generated user created strictly
    before it, and every order item references a generated order and a
    generated product created strictly before that order. *)
Theorem generate_all_consistent num_users num_products num_orders w t w' :
  generate_all num_users num_products num_orders w = OK (t, w') ->
  consistent_tables t.
Proof.
  unfold generate_all. intros H.
  inv_bind H. rename v into users.
  inv_bind H. rename v into products.
  inv_bind H. rename v into orders.
  inv_bind H. rename v into items. inv_ret H.
  constructor; simpl.
  - apply assign_ids_NoDup.
  - apply assign_ids_NoDup.
  - apply assign_ids_NoDup.
  - apply generate_orders_rows in Hrun1. destruct Hrun1 as [_ Hall].
    apply (Forall_rows
             (fun o => exists u,
                In u (assign_ids (serial_ids (length users)) users) /\
                id u = o_user_id o /\ u_created_at (row u) < o_created_at o)).
    eapply List.Forall_impl; [|exact Hall]. cbv beta.
    intros o (w4 & _ & Hfacts).
    destruct (fact_parent _ _ _ Hfacts) as (u & Hu & Hid & Hlt).
    apply older_than_In in Hu. exists u. tauto.
  - exact (generate_order_items_rows _ _ _ _ _ Hrun2).
Qed.

Lemma generate_all_consistent_witness :
  exists t,
    value (generate_all 1 1 1 whole_run_world) = OK t /\
    length (order_items_table t) = 1%nat /\
    consistent_tables t.
Proof.
  destruct (generate_all 1 1 1 whole_run_world) as [[t w']|e] eqn:Hrun;
    [|vm_compute in Hrun; discriminate].
  exists t. split; [reflexivity|]. split.
  - vm_compute in Hrun. inversion Hrun. reflexivity.
  - exact (generate_all_consistent 1 1 1 whole_run_world t w' Hrun).
Defined.

(** * Code that talks to the outside *)

Lemma insert_rows_length {E} (exec : string -> list string -> list Cell -> Database ->
                                      Outcome E Z * Database)
    table_name columns : forall rows db ids db',
  insert_rows E exec table_name columns rows db = (Done ids, db') ->
  length ids = length rows.
Proof.
  induction rows as [|r rows IH]; simpl; intros db ids db' H.
  - inversion H. reflexivity.
  - destruct (exec table_name columns r db) as [[key|e] db1]; [|discriminate].
    destruct (insert_rows E exec table_name columns rows db1) as [[keys|e] db2] eqn:Hrest;
      [|discriminate].
    inversion H; subst. simpl. f_equal. eapply IH. exact Hrest.
Qed.

(** X15. [insert_data] commits a batch as a whole or not at all. When
    it returns, it returns one key per row of the frame and everything
    the session did is committed; when a statement fails, what was
    committed before the call is still what is committed: no row of the
    batch is. *)
Theorem insert_data_all_or_nothing {E}
    (exec : string -> list string -> list Cell -> Database -> Outcome E Z * Database)
    conn table_name df r conn' :
  insert_data E exec conn table_name df = (r, conn') ->
  match r with
  | Done ids => length ids = length (df_rows df) /\ committed conn' = session conn'
  | Failed _ => committed conn' = committed conn
  end.
Proof.
  unfold insert_data. intros H.
  destruct (insert_rows E exec table_name (df_columns (replace_NaT df))
              (df_rows (replace_NaT df)) (session conn)) as [[ids|e] db] eqn:Hrows;
    inversion H; subst; clear H; simpl.
  - apply insert_rows_length in Hrows. simpl in Hrows.
    rewrite length_map in Hrows. auto.
  - reflexivity.
Qed.

Lemma insert_data_all_or_nothing_witness :
  exists conn',
    insert_data string toy_insert fresh_connection "users" two_rows = (Done [1; 2], conn') /\
    committed conn' = session conn' /\
  exists conn'',
    insert_data string toy_insert fresh_connection "orders" two_rows
      = (Failed "42P01", conn'') /\
    committed conn'' = committed fresh_connection.
Proof.
  destruct (insert_data string toy_insert fresh_connection "users" two_rows)
    as [r conn'] eqn:Hrun.
  pose proof (insert_data_all_or_nothing toy_insert _ _ _ _ _ Hrun) as Hspec.
  assert (Hr : r = Done [1; 2]) by (vm_compute in Hrun; inversion Hrun; reflexivity).
  subst r. destruct Hspec as [_ Hcommitted].
  exists conn'. split; [reflexivity|]. split; [exact Hcommitted|].
  destruct (insert_data string toy_insert fresh_connection "orders" two_rows)
    as [r conn''] eqn:Hfail.
  pose proof (insert_data_all_or_nothing toy_insert _ _ _ _ _ Hfail) as Hspec.
  assert (Hr : r = Failed "42P01") by (vm_compute in Hfail; inversion Hfail; reflexivity).
  subst r. exists conn''. split; [reflexivity|exact Hspec].
Defined.

(** X16. The snapshot guard looks where the exporter writes: when the
    export of a table for an execution date has succeeded,
    [evaluate_condition] for the same keyword arguments returns [False]
    (the block is skipped), provided a successful [FileIO.export] leaves a
    file at the path it was given. *)
Theorem export_then_condition_skips {FileSystem Frame}
    (path_exists : string -> FileSystem -> bool)
    (makedirs : string -> FileSystem -> Outcome block_exn unit * FileSystem)
    (file_export : Frame -> string -> FileSystem -> Outcome block_exn unit * FileSystem)
    (strftime : Z -> string)
    (export_creates : forall df path fs fs',
        file_export df path fs = (Done tt, fs') -> path_exists path fs' = true)
    df kwargs fs fs' :
  export_data_to_file FileSystem Frame makedirs file_export strftime df kwargs fs
    = (Done tt, fs') ->
  evaluate_condition FileSystem path_exists strftime kwargs fs' = Done false.
Proof.
  unfold export_data_to_file, evaluate_condition. intros H.
  destruct (kw_execution_date kwargs) as [date|]; [|discriminate].
  destruct (kw_table_name kwargs) as [table_name|]; [|discriminate].
  destruct (makedirs ("data/" ++ table_name)%string fs) as [[[]|e] fs1]; [|discriminate].
  apply export_creates in H.
  change (path_exists ("data/" ++ table_name ++ "/" ++ strftime date ++ ".parquet")%string
                      fs' = true) in H.
  rewrite H. reflexivity.
Qed.

Lemma export_then_condition_skips_witness :
  let kwargs := mkKwargs (Some 0) (Some "users") in
  evaluate_condition (list string) toy_exists toy_strftime kwargs [] = Done true /\
  exists fs',
    export_data_to_file (list string) DataFrame toy_makedirs toy_export toy_strftime
      two_rows kwargs [] = (Done tt, fs') /\
    evaluate_condition (list string) toy_exists toy_strftime kwargs fs' = Done false.
Proof.
  intros kwargs. split; [reflexivity|].
  destruct (export_data_to_file (list string) DataFrame toy_makedirs toy_export
              toy_strftime two_rows kwargs []) as [r fs'] eqn:Hrun.
  assert (Hr : r = Done tt) by (vm_compute in Hrun; inversion Hrun; reflexivity).
  subst r. exists fs'. split; [reflexivity|].
  apply (export_then_condition_skips toy_exists toy_makedirs toy_export toy_strftime)
    with (df := two_rows) (fs := []); [|exact Hrun].
  intros df path fs fs1 Hexp. unfold toy_export in Hexp. inversion Hexp; subst.
  unfold toy_exists. simpl. rewrite String.eqb_refl. reflexivity.
Defined.
